(** * The pod admission webhook of LeaderWorkerSet

    A shallow embedding of the pod webhook of package [webhooks]: the validating
    endpoints ([validate], [ValidateCreate], [ValidateUpdate],
    [ValidateDelete]), the mutating endpoint ([Default]) and the exclusive
    placement helpers ([genGroupUniqueKey], [SetExclusiveAffinities],
    [exclusiveAffinityApplied]).

    Go maps ([pod.Labels], [pod.Annotations]) are finite maps from strings
    to strings; optional (pointer) substructures are [option]s; slices are
    lists, with the nil slice as the empty list.  [Default] mutates the pod
    it is given and returns an error value: it is written in a small state
    and error monad over the pod. *)

From Stdlib Require Import ZArith Ascii String Decimal DecimalString DecimalPos.
From stdpp Require Import base option list gmap strings.

Local Open Scope Z_scope.

(** ** Kubernetes objects (the fields the webhook reads or writes) *)

Inductive LabelSelectorOperator :=
| LabelSelectorOpIn
| LabelSelectorOpNotIn
| LabelSelectorOpExists
| LabelSelectorOpDoesNotExist.

Record LabelSelectorRequirement := {
  Key : string;
  Operator : LabelSelectorOperator;
  Values : list string
}.

Record LabelSelector := {
  MatchLabels : gmap string string;
  MatchExpressions : list LabelSelectorRequirement
}.

Record PodAffinityTerm := {
  term_LabelSelector : option LabelSelector;
  term_Namespaces : list string;
  TopologyKey : string;
  term_NamespaceSelector : option LabelSelector
}.

Record WeightedPodAffinityTerm := {
  Weight : Z;
  PodAffinityTerm_of : PodAffinityTerm
}.

(** [corev1.PodAffinity] and [corev1.PodAntiAffinity] have the same two
    fields; the record fields carry a prefix to keep them apart. *)
Record PodAffinity := {
  pa_RequiredDuringSchedulingIgnoredDuringExecution : list PodAffinityTerm;
  pa_PreferredDuringSchedulingIgnoredDuringExecution : list WeightedPodAffinityTerm
}.

Record PodAntiAffinity := {
  paa_RequiredDuringSchedulingIgnoredDuringExecution : list PodAffinityTerm;
  paa_PreferredDuringSchedulingIgnoredDuringExecution : list WeightedPodAffinityTerm
}.

(** Node affinity is carried along untouched. *)
Record NodeAffinity := {
  NodeSelectorTerms : list (list LabelSelectorRequirement)
}.

Record Affinity := {
  aff_NodeAffinity : option NodeAffinity;
  aff_PodAffinity : option PodAffinity;
  aff_PodAntiAffinity : option PodAntiAffinity
}.

Record EnvVar := {
  env_Name : string;
  env_Value : string
}.

Record Container := {
  container_Name : string;
  container_Env : list EnvVar;
  container_Limits : gmap string string;
  container_Requests : gmap string string
}.

Record PodSpec := {
  spec_Affinity : option Affinity;
  InitContainers : list Container;
  Containers : list Container
}.

Record Pod := {
  Name : string;
  Namespace : string;
  Labels : gmap string string;
  Annotations : gmap string string;
  Spec : PodSpec
}.

(** A [runtime.Object] handed to the webhook: a pod, or an object of some
    other type, of which only the type name (the [%T] of the error message)
    matters. *)
Inductive Object :=
| ObjPod (pod : Pod)
| ObjOther (typeName : string).

(** The error values the webhook returns. *)
Inductive Error :=
| ErrExpectedPod (typeName : string)
    (* fmt.Errorf("expected a Pod but got a %T", obj) *)
| ErrParsingOrdinal (podName : string)
    (* fmt.Errorf("parsing pod ordinal for pod %s", pod.Name) *)
| ErrSizeAnnotationMissing (podName : string)
    (* fmt.Errorf("size annotation is unexpectedly missing for pod %s", pod.Name) *)
| ErrAtoiSyntax (s : string)
    (* strconv.Atoi: parsing s: invalid syntax *)
| ErrAtoiRange (s : string)
    (* strconv.Atoi: parsing s: value out of range *)
| ErrAccelerator (msg : string).
    (* an error returned by acceleratorutils.AddTPUVariables *)

(** [admission.Warnings] is a slice of strings. *)
Definition Warnings := list string.

(** ** Field updates *)

Definition set_Labels (f : gmap string string → gmap string string) (pod : Pod) : Pod :=
  {| Name := Name pod; Namespace := Namespace pod; Labels := f (Labels pod);
     Annotations := Annotations pod; Spec := Spec pod |}.

Definition set_Spec (f : PodSpec → PodSpec) (pod : Pod) : Pod :=
  {| Name := Name pod; Namespace := Namespace pod; Labels := Labels pod;
     Annotations := Annotations pod; Spec := f (Spec pod) |}.

Definition set_Affinity (a : option Affinity) (s : PodSpec) : PodSpec :=
  {| spec_Affinity := a; InitContainers := InitContainers s;
     Containers := Containers s |}.

Definition set_PodAffinity (pa : option PodAffinity) (a : Affinity) : Affinity :=
  {| aff_NodeAffinity := aff_NodeAffinity a; aff_PodAffinity := pa;
     aff_PodAntiAffinity := aff_PodAntiAffinity a |}.

Definition set_PodAntiAffinity (paa : option PodAntiAffinity) (a : Affinity) : Affinity :=
  {| aff_NodeAffinity := aff_NodeAffinity a; aff_PodAffinity := aff_PodAffinity a;
     aff_PodAntiAffinity := paa |}.

Definition set_pa_Required (l : list PodAffinityTerm) (pa : PodAffinity) : PodAffinity :=
  {| pa_RequiredDuringSchedulingIgnoredDuringExecution := l;
     pa_PreferredDuringSchedulingIgnoredDuringExecution :=
       pa_PreferredDuringSchedulingIgnoredDuringExecution pa |}.

Definition set_paa_Required (l : list PodAffinityTerm) (paa : PodAntiAffinity) : PodAntiAffinity :=
  {| paa_RequiredDuringSchedulingIgnoredDuringExecution := l;
     paa_PreferredDuringSchedulingIgnoredDuringExecution :=
       paa_PreferredDuringSchedulingIgnoredDuringExecution paa |}.

(** The zero values [&corev1.Affinity{}], [&corev1.PodAffinity{}] and
    [&corev1.PodAntiAffinity{}]. *)
Definition emptyAffinity : Affinity :=
  {| aff_NodeAffinity := None; aff_PodAffinity := None; aff_PodAntiAffinity := None |}.

Definition emptyPodAffinity : PodAffinity :=
  {| pa_RequiredDuringSchedulingIgnoredDuringExecution := [];
     pa_PreferredDuringSchedulingIgnoredDuringExecution := [] |}.

Definition emptyPodAntiAffinity : PodAntiAffinity :=
  {| paa_RequiredDuringSchedulingIgnoredDuringExecution := [];
     paa_PreferredDuringSchedulingIgnoredDuringExecution := [] |}.

(** [m[k]] on a Go map of strings: the value, or the empty string when the
    key is absent (also on a nil map). *)
Definition index (m : gmap string string) (k : string) : string :=
  default "" (m !! k).

(** ** Decimal numerals *)

(** A non-negative integer in decimal: one digit or more, nothing else. *)
Definition parseUint (s : string) : option Z :=
  match s with
  | "" => None
  | _ => (λ d, Z.of_N (N.of_uint d)) <$> NilEmpty.uint_of_string s
  end.

(** [fmt.Sprint] of an [int]. *)
Definition Sprint (n : Z) : string := NilZero.string_of_int (Z.to_int n).

(** The characters ['0'] to ['9']. *)
Definition isDigit (c : ascii) : bool :=
  (48 <=? N_of_ascii c)%N && (N_of_ascii c <=? 57)%N.

(** The digits a string starts with. *)
Fixpoint takeDigits (s : string) : string :=
  match s with
  | "" => ""
  | String c r => if isDigit c then String c (takeDigits r) else ""
  end.

(** [strconv.Atoi] on a 64-bit platform: an optional sign, decimal digits,
    and a value that fits [int].  The digits are read from the left into a
    [uint64]: a character that is no digit is a syntax error, unless the
    digits before it already overflow the [uint64], which is a range error;
    so is a value that does not fit [int]. *)
Definition intMin : Z := - 2 ^ 63.
Definition intMax : Z := 2 ^ 63 - 1.
Definition uintMax : Z := 2 ^ 64 - 1.

Definition overflowsUint (digits : string) : bool :=
  match parseUint (takeDigits digits) with
  | Some n => uintMax <? n
  | None => false
  end.

Definition Atoi (s : string) : Error + Z :=
  let '(neg, digits) :=
    match s with
    | String "-" r => (true, r)
    | String "+" r => (false, r)
    | _ => (false, s)
    end in
  match parseUint digits with
  | None =>
      if overflowsUint digits then inl (ErrAtoiRange s) else inl (ErrAtoiSyntax s)
  | Some n =>
      let v := if neg : bool then - n else n in
      if (intMin <=? v) && (v <=? intMax) then inr v else inl (ErrAtoiRange s)
  end.

(** ** The identity assigner *)

(** Cut a name at its last dash. *)
Fixpoint splitLastDash (s : string) : option (string * string) :=
  match s with
  | "" => None
  | String c rest =>
      match splitLastDash rest with
      | Some (parent, suffix) => Some (String c parent, suffix)
      | None => if Ascii.eqb c "-" then Some ("", rest) else None
      end
  end.

Fixpoint hasDash (s : string) : bool :=
  match s with
  | "" => false
  | String c rest => Ascii.eqb c "-" || hasDash rest
  end.

Fixpoint hasSlash (s : string) : bool :=
  match s with
  | "" => false
  | String c rest => Ascii.eqb c "/" || hasSlash rest
  end.

(** Modelled from the spec: [statefulsetutils.GetParentNameAndOrdinal], of
    package [pkg/utils/statefulset], whose source is not available.  The
    input is a pod name following the convention [<parent>-<ordinal>]; the
    output is the integer ordinal, or a not-found failure when the name does
    not parse as [<prefix>-<non-negative integer>].  The caller recognises
    the failure by the ordinal [-1]. *)
Definition GetParentNameAndOrdinal (podName : string) : string * Z :=
  match splitLastDash podName with
  | Some (parent, suffix) =>
      match parseUint suffix with
      | Some ordinal => (parent, ordinal)
      | None => ("", -1)
      end
  | None => ("", -1)
  end.

Fixpoint allDigits (s : string) : bool :=
  match s with
  | "" => true
  | String c r => isDigit c && allDigits r
  end.

(** [s] is a decimal numeral: not empty, digits only. *)
Definition isNumeral (s : string) : bool :=
  match s with
  | "" => false
  | _ => allDigits s
  end.

(** The names of the form [<prefix>-<non-negative integer>]. *)
Definition ordinalName (s : string) : Prop :=
  ∃ prefix ds, s = prefix +:+ "-" +:+ ds ∧ isNumeral ds = true.

(** ** Label selectors *)

(** How the scheduler reads a [metav1.LabelSelector] against the labels of
    a pod (the semantics of [k8s.io/apimachinery/pkg/labels]): [In] wants
    the label present with one of the values, [NotIn] is satisfied by an
    absent label or by another value, [Exists] and [DoesNotExist] look at
    presence only; the requirements of a selector are conjoined, and an
    absent selector selects nothing. *)
Definition requirementMatches (r : LabelSelectorRequirement) (labels : gmap string string) : bool :=
  match Operator r with
  | LabelSelectorOpIn =>
      match labels !! Key r with
      | Some v => bool_decide (v ∈ Values r)
      | None => false
      end
  | LabelSelectorOpNotIn =>
      match labels !! Key r with
      | Some v => bool_decide (v ∉ Values r)
      | None => true
      end
  | LabelSelectorOpExists => bool_decide (is_Some (labels !! Key r))
  | LabelSelectorOpDoesNotExist => bool_decide (labels !! Key r = None)
  end.

Definition selectorMatches (sel : LabelSelector) (labels : gmap string string) : bool :=
  bool_decide (MatchLabels sel ⊆ labels)
  && forallb (λ r, requirementMatches r labels) (MatchExpressions sel).

Definition termMatches (t : PodAffinityTerm) (labels : gmap string string) : bool :=
  match term_LabelSelector t with
  | Some sel => selectorMatches sel labels
  | None => false
  end.

(** ** What the webhook imports *)

(** The label and annotation keys of [api/leaderworkerset/v1] and the
    helpers of [pkg/utils], [pkg/utils/pod] and [pkg/utils/accelerators]:
    their declarations are not among the sources, so the webhook is
    parameterised by them.  [AddTPUVariables] receives the pod by pointer:
    it returns the pod as it leaves it, and its error. *)
Class Imports := {
  SetNameLabelKey : string;
  GroupIndexLabelKey : string;
  WorkerIndexLabelKey : string;
  GroupUniqueHashLabelKey : string;
  ExclusiveKeyAnnotationKey : string;
  SizeAnnotationKey : string;
  LeaderPod : Pod → bool;
  Sha1Hash : string → string;
  PodRequestsTPUs : PodSpec → bool;
  AddTPUVariables : Pod → Z → Pod * option Error
}.

(** ** A state and error monad over the admitted pod *)

Definition M (A : Type) : Type := Pod → Pod * (Error + A).

#[export] Instance M_ret : MRet M := λ A a pod, (pod, inr a).

#[export] Instance M_bind : MBind M := λ A B f m pod,
  match m pod with
  | (pod', inr a) => f a pod'
  | (pod', inl e) => (pod', inl e)
  end.

Definition fail {A} (e : Error) : M A := λ pod, (pod, inl e).
Definition get : M Pod := λ pod, (pod, inr pod).
Definition modify (f : Pod → Pod) : M unit := λ pod, (f pod, inr tt).

(** [pod.Labels[k] = v] *)
Definition setLabel (k v : string) : M unit := modify (set_Labels <[k:=v]>).

(** The pod as the call leaves it, and the returned [error] ([None] is
    [nil]). *)
Definition run (m : M unit) (pod : Pod) : Pod * option Error :=
  match m pod with
  | (pod', inr _) => (pod', None)
  | (pod', inl e) => (pod', Some e)
  end.

(** A call that mutates the pod through its pointer and returns an error. *)
Definition call (f : Pod → Pod * option Error) : M unit := λ pod,
  match f pod with
  | (pod', None) => (pod', inr tt)
  | (pod', Some e) => (pod', inl e)
  end.

Section Webhook.
Context `{Imports}.

(** ** The validating endpoints *)

Definition validate (obj : Object) : Warnings * option Error :=
  match obj with
  | ObjOther T => ([], Some (ErrExpectedPod T))
  | ObjPod pod =>
      (* if pod is not part of leaderworkerset, skip *)
      match Labels pod !! SetNameLabelKey with
      | None => ([], None)
      | Some _ => ([], None)
      end
  end.

Definition ValidateCreate (obj : Object) : Warnings * option Error :=
  validate obj.

Definition ValidateUpdate (oldObj newObj : Object) : Warnings * option Error :=
  ([], None).

Definition ValidateDelete (obj : Object) : Warnings * option Error :=
  ([], None).

(** ** Exclusive placement *)

Definition genGroupUniqueKey (ns podName : string) : string :=
  Sha1Hash (ns +:+ "/" +:+ podName).

(** The two terms [SetExclusiveAffinities] builds. *)
Definition affinityTerm (groupUniqueKey topologyKey : string) : PodAffinityTerm :=
  {| term_LabelSelector := Some
       {| MatchLabels := ∅;
          MatchExpressions :=
            [ {| Key := GroupUniqueHashLabelKey;
                 Operator := LabelSelectorOpIn;
                 Values := [groupUniqueKey] |} ] |};
     term_Namespaces := [];
     TopologyKey := topologyKey;
     term_NamespaceSelector := None |}.

Definition antiAffinityTerm (groupUniqueKey topologyKey : string) : PodAffinityTerm :=
  {| term_LabelSelector := Some
       {| MatchLabels := ∅;
          MatchExpressions :=
            [ {| Key := GroupUniqueHashLabelKey;
                 Operator := LabelSelectorOpExists;
                 Values := [] |};
              {| Key := GroupUniqueHashLabelKey;
                 Operator := LabelSelectorOpNotIn;
                 Values := [groupUniqueKey] |} ] |};
     term_Namespaces := [];
     TopologyKey := topologyKey;
     term_NamespaceSelector := None |}.

(** [SetExclusiveAffinities] sets the affinity and anti-affinity of the
    leader pod.  An absent [Affinity], [PodAffinity] or [PodAntiAffinity] is
    first replaced by its zero value; then one term is appended to each of
    the two required lists. *)
Definition SetExclusiveAffinities (pod : Pod) (groupUniqueKey : string) : Pod :=
  let affinity := default emptyAffinity (spec_Affinity (Spec pod)) in
  let podAffinity := default emptyPodAffinity (aff_PodAffinity affinity) in
  let podAntiAffinity := default emptyPodAntiAffinity (aff_PodAntiAffinity affinity) in
  let topologyKey := index (Annotations pod) ExclusiveKeyAnnotationKey in
  (* Pod affinity ensures the pods of this set land on the same topology domain. *)
  let podAffinity :=
    set_pa_Required
      (pa_RequiredDuringSchedulingIgnoredDuringExecution podAffinity
         ++ [affinityTerm groupUniqueKey topologyKey]) podAffinity in
  (* Pod anti-affinity ensures exclusively this set lands on the topology,
     preventing multiple sets per topology domain. *)
  let podAntiAffinity :=
    set_paa_Required
      (paa_RequiredDuringSchedulingIgnoredDuringExecution podAntiAffinity
         ++ [antiAffinityTerm groupUniqueKey topologyKey]) podAntiAffinity in
  set_Spec (set_Affinity (Some
    (set_PodAntiAffinity (Some podAntiAffinity)
       (set_PodAffinity (Some podAffinity) affinity)))) pod.

(** The same function statement by statement, with every pointer
    dereference written out: [deref p] is the structure [p] points to, and
    [None], a nil-pointer panic, when [p] is nil. *)
Definition deref {A} (p : option A) : option A := p.

(** The two [append] statements. *)
Definition appendTerms_deref (pod : Pod) (groupUniqueKey : string) : option Pod :=
  (* pod.Spec.Affinity.PodAffinity.Required... = append(..., term) *)
  a ← deref (spec_Affinity (Spec pod));
  pa ← deref (aff_PodAffinity a);
  let pa :=
    set_pa_Required
      (pa_RequiredDuringSchedulingIgnoredDuringExecution pa
         ++ [affinityTerm groupUniqueKey (index (Annotations pod) ExclusiveKeyAnnotationKey)]) pa in
  let pod := set_Spec (set_Affinity (Some (set_PodAffinity (Some pa) a))) pod in
  (* pod.Spec.Affinity.PodAntiAffinity.Required... = append(..., term) *)
  a ← deref (spec_Affinity (Spec pod));
  paa ← deref (aff_PodAntiAffinity a);
  let paa :=
    set_paa_Required
      (paa_RequiredDuringSchedulingIgnoredDuringExecution paa
         ++ [antiAffinityTerm groupUniqueKey (index (Annotations pod) ExclusiveKeyAnnotationKey)]) paa in
  Some (set_Spec (set_Affinity (Some (set_PodAntiAffinity (Some paa) a))) pod).

Definition SetExclusiveAffinities_deref (pod : Pod) (groupUniqueKey : string) : option Pod :=
  (* if pod.Spec.Affinity == nil { pod.Spec.Affinity = &corev1.Affinity{} } *)
  let pod :=
    match spec_Affinity (Spec pod) with
    | None => set_Spec (set_Affinity (Some emptyAffinity)) pod
    | Some _ => pod
    end in
  (* if pod.Spec.Affinity.PodAffinity == nil { ... = &corev1.PodAffinity{} } *)
  a ← deref (spec_Affinity (Spec pod));
  let pod :=
    match aff_PodAffinity a with
    | None => set_Spec (set_Affinity (Some (set_PodAffinity (Some emptyPodAffinity) a))) pod
    | Some _ => pod
    end in
  (* if pod.Spec.Affinity.PodAntiAffinity == nil { ... = &corev1.PodAntiAffinity{} } *)
  a ← deref (spec_Affinity (Spec pod));
  let pod :=
    match aff_PodAntiAffinity a with
    | None => set_Spec (set_Affinity (Some (set_PodAntiAffinity (Some emptyPodAntiAffinity) a))) pod
    | Some _ => pod
    end in
  appendTerms_deref pod groupUniqueKey.

(** The loops of [exclusiveAffinityApplied]: is some term scoped to the
    topology key? *)
Definition hasTopologyKey (topologyKey : string) (terms : list PodAffinityTerm) : bool :=
  foldl (λ has t, if String.eqb (TopologyKey t) topologyKey then true else has)
        false terms.

(** [exclusiveAffinityApplied] returns true if the exclusive placement
    terms have been applied. *)
Definition exclusiveAffinityApplied (pod : Pod) : bool :=
  match spec_Affinity (Spec pod) with
  | None => false
  | Some a =>
      match aff_PodAffinity a, aff_PodAntiAffinity a with
      | Some pa, Some paa =>
          let topologyKey := index (Annotations pod) ExclusiveKeyAnnotationKey in
          let hasAffinity :=
            hasTopologyKey topologyKey (pa_RequiredDuringSchedulingIgnoredDuringExecution pa) in
          let hasAntiAffinity :=
            hasTopologyKey topologyKey (paa_RequiredDuringSchedulingIgnoredDuringExecution paa) in
          hasAffinity && hasAntiAffinity
      | _, _ => false
      end
  end.

(** The gated call in [Default]: when the exclusive-placement annotation is
    found and [exclusiveAffinityApplied] is false, call
    [SetExclusiveAffinities]. *)
Definition applyExclusivePlacement (groupUniqueKey : string) (pod : Pod) : Pod :=
  let foundEpKey := bool_decide (is_Some (Annotations pod !! ExclusiveKeyAnnotationKey)) in
  if foundEpKey && negb (exclusiveAffinityApplied pod)
  then SetExclusiveAffinities pod groupUniqueKey
  else pod.

(** ** The mutating endpoint *)

(** The block of [Default] under the comment "adding labels for pods". *)
Definition addLabels : M unit :=
  pod ← get;
  if LeaderPod pod then
    (* add group index label to group pods *)
    match Labels pod !! GroupIndexLabelKey with
    | Some _ => mret tt
    | None =>
        let groupIndex := (GetParentNameAndOrdinal (Name pod)).2 in
        if bool_decide (groupIndex = -1)
        then fail (ErrParsingOrdinal (Name pod))
        else setLabel GroupIndexLabelKey (Sprint groupIndex)
    end;;
    (* add group unique key label for exclusive placement, and use it to
       check whether the node affinity has been applied *)
    pod ← get;
    groupUniqueKey ←
      match Labels pod !! GroupUniqueHashLabelKey with
      | None =>
          let groupUniqueKey := genGroupUniqueKey (Namespace pod) (Name pod) in
          setLabel GroupUniqueHashLabelKey groupUniqueKey;;
          mret groupUniqueKey
      | Some groupUniqueKey => mret groupUniqueKey
      end;
    modify (applyExclusivePlacement groupUniqueKey)
  else
    let workerIndex := (GetParentNameAndOrdinal (Name pod)).2 in
    if bool_decide (workerIndex = -1)
    then fail (ErrParsingOrdinal (Name pod))
    else setLabel WorkerIndexLabelKey (Sprint workerIndex).

(** The block of [Default] under the comment "injecting env vars if
    needed". *)
Definition injectEnvVars : M unit :=
  pod ← get;
  if PodRequestsTPUs (Spec pod) then
    match Annotations pod !! SizeAnnotationKey with
    | None => fail (ErrSizeAnnotationMissing (Name pod))
    | Some size =>
        match Atoi size with
        | inl err => fail err
        | inr podCount => call (λ pod, AddTPUVariables pod podCount)
        end
    end
  else mret tt.

(** [Default] on a pod: the early exit, then the two blocks in turn, the
    second one only when the first returned no error. *)
Definition DefaultPod : M unit :=
  pod ← get;
  (* if pod is not part of leaderworkerset, skip *)
  match Labels pod !! SetNameLabelKey with
  | None => mret tt
  | Some _ => addLabels;; injectEnvVars
  end.

Definition Default (obj : Object) : Object * option Error :=
  match obj with
  | ObjOther T => (obj, Some (ErrExpectedPod T))
  | ObjPod pod =>
      let '(pod', err) := run DefaultPod pod in (ObjPod pod', err)
  end.

(** ** Reading the result *)

(** The required terms of a pod, read through absent structures. *)
Definition requiredAffinityTerms (pod : Pod) : list PodAffinityTerm :=
  default [] (a ← spec_Affinity (Spec pod); pa ← aff_PodAffinity a;
              Some (pa_RequiredDuringSchedulingIgnoredDuringExecution pa)).

Definition requiredAntiAffinityTerms (pod : Pod) : list PodAffinityTerm :=
  default [] (a ← spec_Affinity (Spec pod); paa ← aff_PodAntiAffinity a;
              Some (paa_RequiredDuringSchedulingIgnoredDuringExecution paa)).

(** The pod is a member of a LeaderWorkerSet. *)
Definition groupMember (pod : Pod) : Prop :=
  is_Some (Labels pod !! SetNameLabelKey).

(** What the webhook relies on from the accelerator helpers: whether a pod
    requests TPUs is read off its containers, not off its affinity, and
    [AddTPUVariables] writes to the containers only. *)
Definition requestsIgnoreAffinity : Prop :=
  ∀ (s : PodSpec) (a : option Affinity),
    PodRequestsTPUs (set_Affinity a s) = PodRequestsTPUs s.

Definition variablesKeepLabels : Prop :=
  ∀ (pod : Pod) (size : Z), Labels (AddTPUVariables pod size).1 = Labels pod.

End Webhook.

(** ** A concrete instance of the imports

    The keys are those of the LeaderWorkerSet API group; a leader is the pod
    whose worker index is ["0"]; a pod requests TPUs when one of its
    containers has a limit on [google.com/tpu]; the TPU variables are
    represented by one variable holding the group size.  The hash is a
    stand-in that keeps its input readable. *)
Module Sample.

Definition tpuResource : string := "google.com/tpu".

Definition containerRequestsTPUs (c : Container) : bool :=
  bool_decide (is_Some (container_Limits c !! tpuResource)).

Definition addEnv (e : EnvVar) (c : Container) : Container :=
  {| container_Name := container_Name c;
     container_Env := container_Env c ++ [e];
     container_Limits := container_Limits c;
     container_Requests := container_Requests c |}.

Definition addGroupSize (size : Z) (c : Container) : Container :=
  if containerRequestsTPUs c
  then addEnv {| env_Name := "TPU_WORKER_COUNT"; env_Value := Sprint size |} c
  else c.

Definition set_Containers (f : list Container → list Container) (s : PodSpec) : PodSpec :=
  {| spec_Affinity := spec_Affinity s; InitContainers := InitContainers s;
     Containers := f (Containers s) |}.

#[export] Instance imports : Imports := {|
  SetNameLabelKey := "leaderworkerset.sigs.k8s.io/name";
  GroupIndexLabelKey := "leaderworkerset.sigs.k8s.io/group-index";
  WorkerIndexLabelKey := "leaderworkerset.sigs.k8s.io/worker-index";
  GroupUniqueHashLabelKey := "leaderworkerset.sigs.k8s.io/group-key";
  ExclusiveKeyAnnotationKey := "leaderworkerset.sigs.k8s.io/exclusive-topology";
  SizeAnnotationKey := "leaderworkerset.sigs.k8s.io/size";
  LeaderPod := λ pod,
    bool_decide (Labels pod !! "leaderworkerset.sigs.k8s.io/worker-index" = Some "0");
  Sha1Hash := λ s, "sha1(" +:+ s +:+ ")";
  PodRequestsTPUs := λ s, existsb containerRequestsTPUs (Containers s);
  AddTPUVariables := λ pod size,
    (set_Spec (set_Containers (map (addGroupSize size))) pod, None)
|}.

Definition plainSpec : PodSpec :=
  {| spec_Affinity := None; InitContainers := []; Containers := [] |}.

Definition tpuContainer : Container :=
  {| container_Name := "worker"; container_Env := [];
     container_Limits := {[ tpuResource := "4" ]}; container_Requests := ∅ |}.

Definition tpuSpec : PodSpec :=
  {| spec_Affinity := None; InitContainers := []; Containers := [tpuContainer] |}.

(** A pod outside any LeaderWorkerSet. *)
Definition strayPod : Pod :=
  {| Name := "nginx"; Namespace := "default";
     Labels := {[ "app" := "nginx" ]}; Annotations := ∅; Spec := tpuSpec |}.

(** A leader fresh from its StatefulSet, with exclusive placement on. *)
Definition leaderPod : Pod :=
  {| Name := "sample-0"; Namespace := "default";
     Labels := {[ SetNameLabelKey := "sample"; WorkerIndexLabelKey := "0" ]};
     Annotations := {[ ExclusiveKeyAnnotationKey := "zone"; SizeAnnotationKey := "4" ]};
     Spec := plainSpec |}.

(** A leader that requests TPUs and has no size annotation. *)
Definition tpuLeaderNoSize : Pod :=
  {| Name := "sample-0"; Namespace := "default";
     Labels := {[ SetNameLabelKey := "sample"; WorkerIndexLabelKey := "0" ]};
     Annotations := ∅; Spec := tpuSpec |}.

(** A leader whose name has no ordinal. *)
Definition unnamedLeader : Pod :=
  {| Name := "sample"; Namespace := "default";
     Labels := {[ SetNameLabelKey := "sample"; WorkerIndexLabelKey := "0" ]};
     Annotations := ∅; Spec := plainSpec |}.

(** The same, already carrying a group index. *)
Definition unnamedLeaderIndexed : Pod :=
  set_Labels <[ GroupIndexLabelKey := "0" ]> unnamedLeader.

(** A leader admitted before: both identity labels are there. *)
Definition labelledLeader : Pod :=
  set_Labels (λ l, <[ GroupIndexLabelKey := "7" ]> (<[ GroupUniqueHashLabelKey := "abc" ]> l))
    leaderPod.

(** A worker of group 0. *)
Definition workerPod : Pod :=
  {| Name := "sample-0-3"; Namespace := "default";
     Labels := {[ SetNameLabelKey := "sample" ]};
     Annotations := {[ SizeAnnotationKey := "4" ]}; Spec := plainSpec |}.

(** A worker whose worker index label disagrees with its name. *)
Definition relabelledWorker : Pod :=
  set_Labels <[ WorkerIndexLabelKey := "7" ]> workerPod.

(** The pod as [Default] leaves it. *)
Definition admitted (pod : Pod) : Pod := (run DefaultPod pod).1.

(** A term of the user, scoped to a zone, that selects the pods of an
    application. *)
Definition userTerm : PodAffinityTerm :=
  {| term_LabelSelector := Some {| MatchLabels := {[ "app" := "db" ]};
                                   MatchExpressions := [] |};
     term_Namespaces := [];
     TopologyKey := "zone";
     term_NamespaceSelector := None |}.

Definition userSpec : PodSpec :=
  {| spec_Affinity := Some
       {| aff_NodeAffinity := None;
          aff_PodAffinity := Some
            {| pa_RequiredDuringSchedulingIgnoredDuringExecution := [userTerm];
               pa_PreferredDuringSchedulingIgnoredDuringExecution := [] |};
          aff_PodAntiAffinity := Some
            {| paa_RequiredDuringSchedulingIgnoredDuringExecution := [userTerm];
               paa_PreferredDuringSchedulingIgnoredDuringExecution := [] |} |};
     InitContainers := []; Containers := [] |}.

(** A leader with exclusive placement on, whose template already has
    terms scoped to the zone. *)
Definition leaderWithUserTerms : Pod :=
  {| Name := "sample-0"; Namespace := "default";
     Labels := {[ SetNameLabelKey := "sample"; WorkerIndexLabelKey := "0" ]};
     Annotations := {[ ExclusiveKeyAnnotationKey := "zone"; SizeAnnotationKey := "4" ]};
     Spec := userSpec |}.

(** A leader that requests TPUs, with its size annotation. *)
Definition tpuLeader : Pod :=
  {| Name := "sample-0"; Namespace := "default";
     Labels := {[ SetNameLabelKey := "sample"; WorkerIndexLabelKey := "0" ]};
     Annotations := {[ SizeAnnotationKey := "4" ]}; Spec := tpuSpec |}.

(** The same with a size that is no number. *)
Definition tpuLeaderBadSize : Pod :=
  {| Name := "sample-0"; Namespace := "default";
     Labels := {[ SetNameLabelKey := "sample"; WorkerIndexLabelKey := "0" ]};
     Annotations := {[ SizeAnnotationKey := "four" ]}; Spec := tpuSpec |}.

End Sample.

(** * Properties *)

(** ** Numerals and names *)

Section Numerals.

Lemma isDigit_not_dash c : isDigit c = true → Ascii.eqb c "-" = false.
Proof.
  destruct c as [[|] [|] [|] [|] [|] [|] [|] [|]]; vm_compute; congruence.
Qed.

Lemma uint_of_char_digit c d :
  is_Some (uint_of_char c (Some d)) ↔ isDigit c = true.
Proof.
  destruct c as [[|] [|] [|] [|] [|] [|] [|] [|]]; vm_compute;
    (split;
     [ intros [x Hx]; first [reflexivity | discriminate Hx]
     | intros Hx; first [discriminate Hx | eexists; reflexivity] ]).
Qed.

Lemma uint_of_string_digits s :
  is_Some (NilEmpty.uint_of_string s) ↔ allDigits s = true.
Proof.
  induction s as [|c s IH]; simpl.
  - split; eauto.
  - rewrite andb_true_iff, <- IH. split.
    + intros [d Hd]. destruct (NilEmpty.uint_of_string s) as [d'|] eqn:E.
      * split; [|by eauto]. apply (uint_of_char_digit c d'). by eauto.
      * discriminate.
    + intros [Hc [d' ->]]. by apply uint_of_char_digit.
Qed.

Lemma parseUint_is_Some s : is_Some (parseUint s) ↔ isNumeral s = true.
Proof.
  destruct s as [|c s]; [simpl; split; [by intros [? ?] | done]|].
  unfold parseUint, isNumeral. rewrite <- uint_of_string_digits.
  rewrite fmap_is_Some. done.
Qed.

Lemma parseUint_None s : parseUint s = None ↔ isNumeral s = false.
Proof.
  rewrite eq_None_not_Some, parseUint_is_Some. by destruct (isNumeral s).
Qed.

Lemma parseUint_nonneg s n : parseUint s = Some n → 0 ≤ n.
Proof.
  destruct s as [|c s]; [done|]. unfold parseUint.
  intros (d & _ & ->)%fmap_Some. lia.
Qed.

(** Printing a natural number and reading it back. *)
Lemma parseUint_Sprint (k : N) : parseUint (Sprint (Z.of_N k)) = Some (Z.of_N k).
Proof.
  destruct k as [|p]; [reflexivity|].
  unfold Sprint. simpl.
  pose proof (DecimalPos.Unsigned.to_uint_nonnil p) as Hnil.
  assert (NilZero.string_of_uint (Pos.to_uint p)
          = NilEmpty.string_of_uint (Pos.to_uint p)) as ->
    by (by destruct (Pos.to_uint p)).
  unfold parseUint.
  destruct (NilEmpty.string_of_uint (Pos.to_uint p)) as [|c r] eqn:E.
  - by destruct (Pos.to_uint p).
  - rewrite <- E, NilEmpty.usu. simpl. unfold N.of_uint.
    by rewrite DecimalPos.Unsigned.of_to.
Qed.

Lemma isNumeral_Sprint (k : N) : isNumeral (Sprint (Z.of_N k)) = true.
Proof. apply parseUint_is_Some. rewrite parseUint_Sprint. by eauto. Qed.

Lemma allDigits_no_dash s : allDigits s = true → splitLastDash s = None.
Proof.
  induction s as [|c s IH]; [done|]. simpl.
  intros [Hc Hs]%andb_true_iff. rewrite (IH Hs).
  by rewrite (isDigit_not_dash c Hc).
Qed.

Lemma isNumeral_allDigits s : isNumeral s = true → allDigits s = true.
Proof. by destruct s. Qed.

Lemma splitLastDash_app prefix suffix :
  splitLastDash suffix = None →
  splitLastDash (prefix +:+ "-" +:+ suffix) = Some (prefix, suffix).
Proof.
  intros Hs. change ("-" +:+ suffix) with (String "-" suffix).
  induction prefix as [|c p IH].
  - change (splitLastDash (String "-" suffix) = Some ("", suffix)).
    simpl. by rewrite Hs.
  - change (splitLastDash (String c (p +:+ String "-" suffix))
            = Some (String c p, suffix)).
    simpl. by rewrite IH.
Qed.

Lemma splitLastDash_Some s prefix suffix :
  splitLastDash s = Some (prefix, suffix) →
  s = prefix +:+ "-" +:+ suffix.
Proof.
  revert prefix. induction s as [|c s IH]; intros prefix; [done|]. simpl.
  destruct (splitLastDash s) as [[p suf]|] eqn:E.
  - intros [= <- <-]. rewrite (IH p eq_refl). reflexivity.
  - destruct (Ascii.eqb_spec c "-") as [->|]; [|done].
    by intros [= <- <-].
Qed.

(** The ordinal of a name that ends in a numeral. *)
Lemma GetParentNameAndOrdinal_numeral prefix ds n :
  parseUint ds = Some n →
  GetParentNameAndOrdinal (prefix +:+ "-" +:+ ds) = (prefix, n).
Proof.
  intros Hn. unfold GetParentNameAndOrdinal.
  rewrite splitLastDash_app, Hn; [done|].
  apply allDigits_no_dash, isNumeral_allDigits, parseUint_is_Some. by eauto.
Qed.

(** The failure on every other name. *)
Lemma GetParentNameAndOrdinal_not_found name :
  ¬ ordinalName name → GetParentNameAndOrdinal name = ("", -1).
Proof.
  intros Hn. unfold GetParentNameAndOrdinal.
  destruct (splitLastDash name) as [[p suf]|] eqn:E; [|done].
  destruct (parseUint suf) as [n|] eqn:En; [|done].
  destruct Hn. exists p, suf. split; [by apply splitLastDash_Some|].
  apply parseUint_is_Some. by eauto.
Qed.

(** The ordinal is [-1] on those names only. *)
Lemma GetParentNameAndOrdinal_found name :
  ordinalName name → (GetParentNameAndOrdinal name).2 ≠ -1.
Proof.
  intros (p & ds & -> & [n Hn]%parseUint_is_Some).
  rewrite (GetParentNameAndOrdinal_numeral p ds n Hn). simpl.
  apply parseUint_nonneg in Hn. lia.
Qed.

Lemma ordinalName_iff name :
  ordinalName name ↔ (GetParentNameAndOrdinal name).2 ≠ -1.
Proof.
  split; [apply GetParentNameAndOrdinal_found|].
  intros Hne. destruct (GetParentNameAndOrdinal name) as [p k] eqn:E.
  unfold GetParentNameAndOrdinal in E.
  destruct (splitLastDash name) as [[p' suf]|] eqn:E1; [|by simplify_eq].
  destruct (parseUint suf) as [m|] eqn:E2; [|by simplify_eq].
  exists p', suf. split; [by apply splitLastDash_Some|].
  apply parseUint_is_Some. by eauto.
Qed.

#[export] Instance ordinalName_dec name : Decision (ordinalName name).
Proof.
  refine (cast_if (decide ((GetParentNameAndOrdinal name).2 ≠ -1)));
    abstract (by rewrite ordinalName_iff).
Defined.

Lemma splitLastDash_None s : splitLastDash s = None ↔ hasDash s = false.
Proof.
  induction s as [|c s IH]; [done|]. simpl.
  rewrite orb_false_iff, <- IH.
  destruct (splitLastDash s) as [[p suf]|], (Ascii.eqb c "-");
    (split; [done | by intros []]).
Qed.

(** C6: the identity assigner.  A name [<parent>-<k>], with [k] a natural
    number in decimal, has ordinal [k] (and parent [<parent>]).  A name
    whose part after the last dash is not a decimal numeral, and more
    generally every name that is not of the form
    [<prefix>-<non-negative integer>], gets the not-found ordinal [-1]. *)
Theorem ordinal_of_a_pod_name (name : string) :
  (∀ (parent : string) (k : N),
     name = parent +:+ "-" +:+ Sprint (Z.of_N k) →
     GetParentNameAndOrdinal name = (parent, Z.of_N k))
  ∧ (∀ parent suffix : string,
       name = parent +:+ "-" +:+ suffix →
       hasDash suffix = false →
       isNumeral suffix = false →
       (GetParentNameAndOrdinal name).2 = -1)
  ∧ (¬ ordinalName name → (GetParentNameAndOrdinal name).2 = -1).
Proof.
  split; [|split].
  - intros parent k ->.
    apply GetParentNameAndOrdinal_numeral, parseUint_Sprint.
  - intros parent suffix -> Hd Hn. unfold GetParentNameAndOrdinal.
    rewrite splitLastDash_app by (by apply splitLastDash_None).
    apply parseUint_None in Hn. by rewrite Hn.
  - intros Hn. by rewrite GetParentNameAndOrdinal_not_found.
Qed.

Lemma ordinal_of_a_pod_name_witness :
  GetParentNameAndOrdinal "sample-0-3" = ("sample-0", 3)
  ∧ (GetParentNameAndOrdinal "sample-0-x3").2 = -1
  ∧ (GetParentNameAndOrdinal "sample").2 = -1.
Proof.
  split; [|split].
  - apply (proj1 (ordinal_of_a_pod_name "sample-0-3") "sample-0" 3%N).
    reflexivity.
  - apply (proj1 (proj2 (ordinal_of_a_pod_name "sample-0-x3")) "sample-0" "x3");
      reflexivity.
  - apply (proj2 (proj2 (ordinal_of_a_pod_name "sample"))).
    apply (bool_decide_eq_false_1 (ordinalName "sample")). reflexivity.
Defined.

(** *** Strings around a separator *)

Lemma append_assoc (a b c : string) : (a +:+ b) +:+ c = a +:+ (b +:+ c).
Proof.
  induction a as [|x a IH]; [done|].
  change (String x ((a +:+ b) +:+ c) = String x (a +:+ (b +:+ c))).
  by rewrite IH.
Qed.

(** A string is cut at its first slash in one way only. *)
Lemma slash_cut_unique (a1 b1 a2 b2 : string) :
  hasSlash a1 = false → hasSlash a2 = false →
  a1 +:+ "/" +:+ b1 = a2 +:+ "/" +:+ b2 →
  a1 = a2 ∧ b1 = b2.
Proof.
  change ("/" +:+ b1) with (String "/" b1).
  change ("/" +:+ b2) with (String "/" b2).
  revert a2. induction a1 as [|x a1 IH]; intros [|y a2].
  - intros _ _ [= ->]. done.
  - intros _ Hs. change ("" +:+ String "/" b1) with (String "/" b1).
    change (String y a2 +:+ String "/" b2) with (String y (a2 +:+ String "/" b2)).
    intros [= <- _]. simpl in Hs. discriminate.
  - intros Hs _. change ("" +:+ String "/" b2) with (String "/" b2).
    change (String x a1 +:+ String "/" b1) with (String x (a1 +:+ String "/" b1)).
    intros [= -> _]. simpl in Hs. discriminate.
  - change (String x a1 +:+ String "/" b1) with (String x (a1 +:+ String "/" b1)).
    change (String y a2 +:+ String "/" b2) with (String y (a2 +:+ String "/" b2)).
    simpl. intros [_ H1]%orb_false_iff [_ H2]%orb_false_iff [= -> Heq].
    destruct (IH a2 H1 H2 Heq) as [-> ->]. done.
Qed.

(** *** Reading a printed integer *)

(** A numeral without sign goes through [Atoi] as it is. *)
Lemma Atoi_numeral s n :
  parseUint s = Some n → n ≤ intMax → Atoi s = inr n.
Proof.
  intros Hp Hmax. pose proof (parseUint_nonneg _ _ Hp) as Hpos.
  assert (isNumeral s = true) as Hnum by (apply parseUint_is_Some; eauto).
  destruct s as [|c r]; [done|]. simpl in Hnum.
  apply andb_true_iff in Hnum as [Hc _].
  assert (Atoi (String c r)
          = match parseUint (String c r) with
            | None =>
                if overflowsUint (String c r) then inl (ErrAtoiRange (String c r))
                else inl (ErrAtoiSyntax (String c r))
            | Some m =>
                if (intMin <=? m) && (m <=? intMax) then inr m
                else inl (ErrAtoiRange (String c r))
            end) as ->.
  { destruct c as [[|] [|] [|] [|] [|] [|] [|] [|]];
      first [ discriminate Hc | reflexivity ]. }
  rewrite Hp.
  assert ((intMin <=? n) = true) as -> by (apply Z.leb_le; unfold intMin; lia).
  assert ((n <=? intMax) = true) as -> by (by apply Z.leb_le).
  done.
Qed.

(** Printing an [int] and reading it back with [Atoi]. *)
Lemma Atoi_Sprint (n : Z) :
  intMin ≤ n ≤ intMax → Atoi (Sprint n) = inr n.
Proof.
  intros [Hmin Hmax]. destruct n as [|p|p].
  - reflexivity.
  - apply Atoi_numeral; [|done]. apply (parseUint_Sprint (N.pos p)).
  - pose proof (parseUint_Sprint (N.pos p)) as Hp.
    change (Sprint (Z.of_N (N.pos p)))
      with (NilZero.string_of_uint (Pos.to_uint p)) in Hp.
    change (Sprint (Z.neg p))
      with (String "-" (NilZero.string_of_uint (Pos.to_uint p))).
    assert (∀ r, Atoi (String "-" r)
                 = match parseUint r with
                   | None =>
                       if overflowsUint r then inl (ErrAtoiRange (String "-" r))
                       else inl (ErrAtoiSyntax (String "-" r))
                   | Some m =>
                       if (intMin <=? - m) && (- m <=? intMax) then inr (- m)
                       else inl (ErrAtoiRange (String "-" r))
                   end) as -> by reflexivity.
    rewrite Hp. change (- Z.of_N (N.pos p)) with (Z.neg p).
    assert ((intMin <=? Z.neg p) = true) as -> by (by apply Z.leb_le).
    assert ((Z.neg p <=? intMax) = true) as -> by (by apply Z.leb_le).
    done.
Qed.

End Numerals.

(** ** The webhook *)

Section WebhookProperties.
Context `{Imports}.

Ltac unfold_M :=
  unfold run, call, setLabel, modify, get, fail, mbind, M_bind, mret, M_ret in *.

(** *** The validating endpoints *)

(** C10: the validating endpoints never reject a pod.  For every pod,
    labelled as a group member or not, [validate] and [ValidateCreate]
    return nil warnings and a nil error; [ValidateUpdate] and
    [ValidateDelete] return them for every object; the one validation error
    is the one [validate] and [ValidateCreate] give for an object that is
    not a pod. *)
Theorem validating_webhook_never_rejects_a_pod
    (pod : Pod) (oldObj newObj obj : Object) (T : string) :
  validate (ObjPod pod) = ([], None)
  ∧ ValidateCreate (ObjPod pod) = ([], None)
  ∧ ValidateUpdate oldObj newObj = ([], None)
  ∧ ValidateDelete obj = ([], None)
  ∧ validate (ObjOther T) = ([], Some (ErrExpectedPod T))
  ∧ ValidateCreate (ObjOther T) = ([], Some (ErrExpectedPod T)).
Proof.
  repeat split; try reflexivity;
    unfold ValidateCreate, validate; by destruct (Labels pod !! SetNameLabelKey).
Qed.

(** *** Pods outside any group *)

Lemma DefaultPod_unmanaged (pod : Pod) :
  Labels pod !! SetNameLabelKey = None → run DefaultPod pod = (pod, None).
Proof. intros Hl. unfold DefaultPod. unfold_M. by rewrite Hl. Qed.

(** C3: a pod without the group-membership label passes both paths
    untouched.  [Default] returns no error and the very pod it was given
    (labels, annotations, affinity and containers included), and [validate]
    returns nil warnings and a nil error. *)
Theorem unmanaged_pod_passes_unmodified (pod : Pod) :
  Labels pod !! SetNameLabelKey = None →
  Default (ObjPod pod) = (ObjPod pod, None)
  ∧ validate (ObjPod pod) = ([], None).
Proof.
  intros Hl. split.
  - unfold Default. by rewrite (DefaultPod_unmanaged pod Hl).
  - unfold validate. by rewrite Hl.
Qed.

(** *** Exclusive placement *)

Lemma hasTopologyKey_snoc topologyKey terms t :
  hasTopologyKey topologyKey (terms ++ [t])
  = if String.eqb (TopologyKey t) topologyKey then true
    else hasTopologyKey topologyKey terms.
Proof. unfold hasTopologyKey. by rewrite foldl_app. Qed.

Lemma SetExclusiveAffinities_Annotations pod k :
  Annotations (SetExclusiveAffinities pod k) = Annotations pod.
Proof. reflexivity. Qed.

Lemma SetExclusiveAffinities_required pod k :
  let topologyKey := index (Annotations pod) ExclusiveKeyAnnotationKey in
  requiredAffinityTerms (SetExclusiveAffinities pod k)
  = requiredAffinityTerms pod ++ [affinityTerm k topologyKey]
  ∧ requiredAntiAffinityTerms (SetExclusiveAffinities pod k)
    = requiredAntiAffinityTerms pod ++ [antiAffinityTerm k topologyKey].
Proof.
  unfold requiredAffinityTerms, requiredAntiAffinityTerms, SetExclusiveAffinities.
  destruct pod as [n ns ls an [[[na [pa|] [paa|]]|] ic cs]]; by simpl.
Qed.

Lemma SetExclusiveAffinities_applied pod k :
  exclusiveAffinityApplied (SetExclusiveAffinities pod k) = true.
Proof.
  unfold exclusiveAffinityApplied, SetExclusiveAffinities. simpl.
  rewrite !hasTopologyKey_snoc. simpl. by rewrite String.eqb_refl.
Qed.

Lemma applyExclusivePlacement_skip pod k :
  exclusiveAffinityApplied pod = true → applyExclusivePlacement k pod = pod.
Proof.
  intros Ha. unfold applyExclusivePlacement. rewrite Ha.
  by rewrite andb_false_r.
Qed.

Lemma applyExclusivePlacement_twice pod k k' :
  applyExclusivePlacement k' (applyExclusivePlacement k pod)
  = applyExclusivePlacement k pod.
Proof.
  unfold applyExclusivePlacement at 2 3.
  destruct (bool_decide _ && negb _) eqn:E.
  - apply applyExclusivePlacement_skip, SetExclusiveAffinities_applied.
  - unfold applyExclusivePlacement. by rewrite E.
Qed.

(** C1: exclusive placement is idempotent.  Running the gated mutation of
    [Default] a second time, with whatever key, leaves the pod as the first
    run left it; a pod on which [exclusiveAffinityApplied] already holds is
    returned as it is; and on a pod that carries the annotation and has not
    had the terms applied, two runs append one affinity term and one
    anti-affinity term, those of the first run. *)
Theorem exclusive_placement_idempotent (pod : Pod) (k k' : string) :
  applyExclusivePlacement k' (applyExclusivePlacement k pod)
  = applyExclusivePlacement k pod
  ∧ (exclusiveAffinityApplied pod = true → applyExclusivePlacement k pod = pod)
  ∧ (is_Some (Annotations pod !! ExclusiveKeyAnnotationKey) →
     exclusiveAffinityApplied pod = false →
     let topologyKey := index (Annotations pod) ExclusiveKeyAnnotationKey in
     let pod'' := applyExclusivePlacement k' (applyExclusivePlacement k pod) in
     requiredAffinityTerms pod''
     = requiredAffinityTerms pod ++ [affinityTerm k topologyKey]
     ∧ requiredAntiAffinityTerms pod''
       = requiredAntiAffinityTerms pod ++ [antiAffinityTerm k topologyKey]
     ∧ exclusiveAffinityApplied pod'' = true).
Proof.
  split; [apply applyExclusivePlacement_twice|].
  split; [apply applyExclusivePlacement_skip|].
  intros Hep Ha. simpl. rewrite applyExclusivePlacement_twice.
  unfold applyExclusivePlacement. rewrite Ha, (bool_decide_eq_true_2 _ Hep). simpl.
  pose proof (SetExclusiveAffinities_required pod k) as [-> ->].
  by rewrite SetExclusiveAffinities_applied.
Qed.

(** The anti-affinity term selects the labelled pods of the other groups. *)
Lemma antiAffinityTerm_matches k topologyKey (labels : gmap string string) :
  termMatches (antiAffinityTerm k topologyKey) labels
  = match labels !! GroupUniqueHashLabelKey with
    | Some v => bool_decide (v ≠ k)
    | None => false
    end.
Proof.
  unfold termMatches, selectorMatches, requirementMatches. simpl.
  rewrite (bool_decide_eq_true_2 (∅ ⊆ labels)) by apply map_empty_subseteq.
  destruct (labels !! GroupUniqueHashLabelKey) as [v|]; simpl; [|done].
  rewrite andb_true_r. apply bool_decide_ext.
  by rewrite list_elem_of_singleton.
Qed.

(** The affinity term selects the pods of the group. *)
Lemma affinityTerm_matches k topologyKey (labels : gmap string string) :
  termMatches (affinityTerm k topologyKey) labels
  = bool_decide (labels !! GroupUniqueHashLabelKey = Some k).
Proof.
  unfold termMatches, selectorMatches, requirementMatches. simpl.
  rewrite (bool_decide_eq_true_2 (∅ ⊆ labels)) by apply map_empty_subseteq.
  destruct (labels !! GroupUniqueHashLabelKey) as [v|]; simpl.
  - rewrite andb_true_r. apply bool_decide_ext.
    rewrite list_elem_of_singleton. split; congruence.
  - done.
Qed.

(** C2: [SetExclusiveAffinities] appends one term to each required list,
    and nothing else changes.  The affinity term is [group-key In {k}], the
    anti-affinity term is [group-key Exists] and [group-key NotIn {k}], and
    both are scoped to the topology key of the annotation.  Hence the
    affinity term selects the pods labelled [k]; and for keys [A ≠ B] the
    anti-affinity term of [A] does not select a pod labelled [A], selects a
    pod labelled [B], and does not select a pod without the label. *)
Theorem SetExclusiveAffinities_appends_the_term_pair
    (pod : Pod) (k A B : string) (labelsA labelsB unlabelled : gmap string string) :
  let topologyKey := index (Annotations pod) ExclusiveKeyAnnotationKey in
  let pod' := SetExclusiveAffinities pod k in
  (requiredAffinityTerms pod'
     = requiredAffinityTerms pod ++ [affinityTerm k topologyKey]
   ∧ requiredAntiAffinityTerms pod'
     = requiredAntiAffinityTerms pod ++ [antiAffinityTerm k topologyKey])
  ∧ (term_LabelSelector (affinityTerm k topologyKey)
       = Some {| MatchLabels := ∅;
                 MatchExpressions :=
                   [ {| Key := GroupUniqueHashLabelKey;
                        Operator := LabelSelectorOpIn; Values := [k] |} ] |}
     ∧ term_LabelSelector (antiAffinityTerm k topologyKey)
       = Some {| MatchLabels := ∅;
                 MatchExpressions :=
                   [ {| Key := GroupUniqueHashLabelKey;
                        Operator := LabelSelectorOpExists; Values := [] |};
                     {| Key := GroupUniqueHashLabelKey;
                        Operator := LabelSelectorOpNotIn; Values := [k] |} ] |}
     ∧ TopologyKey (affinityTerm k topologyKey) = topologyKey
     ∧ TopologyKey (antiAffinityTerm k topologyKey) = topologyKey)
  ∧ (Name pod' = Name pod ∧ Namespace pod' = Namespace pod
     ∧ Labels pod' = Labels pod ∧ Annotations pod' = Annotations pod
     ∧ Containers (Spec pod') = Containers (Spec pod)
     ∧ InitContainers (Spec pod') = InitContainers (Spec pod))
  ∧ (A ≠ B →
     labelsA !! GroupUniqueHashLabelKey = Some A →
     labelsB !! GroupUniqueHashLabelKey = Some B →
     unlabelled !! GroupUniqueHashLabelKey = None →
     termMatches (affinityTerm A topologyKey) labelsA = true
     ∧ termMatches (affinityTerm A topologyKey) labelsB = false
     ∧ termMatches (antiAffinityTerm A topologyKey) labelsA = false
     ∧ termMatches (antiAffinityTerm A topologyKey) labelsB = true
     ∧ termMatches (antiAffinityTerm A topologyKey) unlabelled = false).
Proof.
  simpl. split; [apply SetExclusiveAffinities_required|].
  split; [done|]. split; [done|].
  intros Hne HA HB Hu.
  rewrite !affinityTerm_matches, !antiAffinityTerm_matches, HA, HB, Hu.
  repeat split.
  - by apply bool_decide_eq_true_2.
  - apply bool_decide_eq_false_2. congruence.
  - apply bool_decide_eq_false_2. by intros [].
  - apply bool_decide_eq_true_2. congruence.
Qed.

(** The guards matter: on a pod without affinity the appends alone would
    dereference a nil pointer. *)
Lemma appendTerms_deref_needs_the_guards pod k :
  spec_Affinity (Spec pod) = None → appendTerms_deref pod k = None.
Proof. unfold appendTerms_deref, deref. by intros ->. Qed.

(** C9: [SetExclusiveAffinities] never dereferences an absent structure.
    Written with every dereference checked, it returns a pod, the one the
    function computes, whatever of [Affinity], [PodAffinity] and
    [PodAntiAffinity] is absent; all three are present in the result; an
    absent structure counts as its zero value, and what was present is
    kept. *)
Theorem SetExclusiveAffinities_handles_absent_structures
    (pod : Pod) (groupUniqueKey : string) :
  let topologyKey := index (Annotations pod) ExclusiveKeyAnnotationKey in
  let affinity := default emptyAffinity (spec_Affinity (Spec pod)) in
  let podAffinity := default emptyPodAffinity (aff_PodAffinity affinity) in
  let podAntiAffinity := default emptyPodAntiAffinity (aff_PodAntiAffinity affinity) in
  SetExclusiveAffinities_deref pod groupUniqueKey
  = Some (SetExclusiveAffinities pod groupUniqueKey)
  ∧ spec_Affinity (Spec (SetExclusiveAffinities pod groupUniqueKey))
    = Some
        {| aff_NodeAffinity := aff_NodeAffinity affinity;
           aff_PodAffinity := Some
             {| pa_RequiredDuringSchedulingIgnoredDuringExecution :=
                  pa_RequiredDuringSchedulingIgnoredDuringExecution podAffinity
                    ++ [affinityTerm groupUniqueKey topologyKey];
                pa_PreferredDuringSchedulingIgnoredDuringExecution :=
                  pa_PreferredDuringSchedulingIgnoredDuringExecution podAffinity |};
           aff_PodAntiAffinity := Some
             {| paa_RequiredDuringSchedulingIgnoredDuringExecution :=
                  paa_RequiredDuringSchedulingIgnoredDuringExecution podAntiAffinity
                    ++ [antiAffinityTerm groupUniqueKey topologyKey];
                paa_PreferredDuringSchedulingIgnoredDuringExecution :=
                  paa_PreferredDuringSchedulingIgnoredDuringExecution podAntiAffinity |} |}.
Proof.
  destruct pod as [n ns ls an [[[na [pa|] [paa|]]|] ic cs]]; by split.
Qed.

(** *** Identity labels *)

Ltac unfold_Default :=
  unfold Default, DefaultPod, addLabels, injectEnvVars; unfold_M.

(** Where [Default] reads the ordinal off the name, a name without ordinal
    is the parsing error, and nothing is written. *)
Lemma Default_parsing_error (pod : Pod) :
  groupMember pod →
  ¬ ordinalName (Name pod) →
  LeaderPod pod = false ∨ Labels pod !! GroupIndexLabelKey = None →
  Default (ObjPod pod) = (ObjPod pod, Some (ErrParsingOrdinal (Name pod))).
Proof.
  intros [v Hm] Hname Hread. unfold_Default. rewrite Hm.
  rewrite (GetParentNameAndOrdinal_not_found _ Hname). simpl.
  destruct (LeaderPod pod) eqn:El; [|done].
  destruct Hread as [Hw | ->]; done.
Qed.

(** What the gated placement step leaves alone. *)
Lemma applyExclusivePlacement_frame k pod :
  Name (applyExclusivePlacement k pod) = Name pod
  ∧ Namespace (applyExclusivePlacement k pod) = Namespace pod
  ∧ Labels (applyExclusivePlacement k pod) = Labels pod
  ∧ Annotations (applyExclusivePlacement k pod) = Annotations pod
  ∧ Containers (Spec (applyExclusivePlacement k pod)) = Containers (Spec pod)
  ∧ InitContainers (Spec (applyExclusivePlacement k pod)) = InitContainers (Spec pod).
Proof. unfold applyExclusivePlacement. by destruct (_ && _). Qed.

Lemma applyExclusivePlacement_requests k pod :
  requestsIgnoreAffinity →
  PodRequestsTPUs (Spec (applyExclusivePlacement k pod)) = PodRequestsTPUs (Spec pod).
Proof.
  intros Hreq. unfold applyExclusivePlacement.
  destruct (_ && _); [|done]. apply Hreq.
Qed.

(** [Default] on a group member, in terms of its two blocks. *)
Lemma Default_member (pod : Pod) :
  groupMember pod →
  Default (ObjPod pod)
  = match addLabels pod with
    | (pod1, inl e) => (ObjPod pod1, Some e)
    | (pod1, inr _) =>
        match injectEnvVars pod1 with
        | (pod2, inl e) => (ObjPod pod2, Some e)
        | (pod2, inr _) => (ObjPod pod2, None)
        end
    end.
Proof.
  intros [v Hm]. unfold Default, DefaultPod. unfold_M. rewrite Hm.
  destruct (addLabels pod) as [pod1 [e|[]]]; [done|].
  by destruct (injectEnvVars pod1) as [pod2 [e|[]]].
Qed.

(** The labelling block fails with the parsing error only, and then it has
    written nothing. *)
Lemma addLabels_error pod pod1 e :
  addLabels pod = (pod1, inl e) →
  pod1 = pod ∧ e = ErrParsingOrdinal (Name pod).
Proof.
  unfold addLabels. unfold_M. intros Hrun.
  repeat case_match; by simplify_eq.
Qed.

(** The labelling block writes labels and affinity, nothing else. *)
Lemma addLabels_frame pod pod1 r :
  addLabels pod = (pod1, r) →
  Name pod1 = Name pod ∧ Namespace pod1 = Namespace pod
  ∧ Annotations pod1 = Annotations pod
  ∧ Containers (Spec pod1) = Containers (Spec pod)
  ∧ InitContainers (Spec pod1) = InitContainers (Spec pod).
Proof.
  unfold addLabels. unfold_M. intros Hrun.
  repeat case_match; simplify_eq; try done;
    by match goal with
       | |- context [applyExclusivePlacement ?k ?p] =>
           destruct (applyExclusivePlacement_frame k p) as (-> & -> & _ & -> & -> & ->)
       end.
Qed.

Lemma addLabels_requests pod pod1 r :
  requestsIgnoreAffinity →
  addLabels pod = (pod1, r) →
  PodRequestsTPUs (Spec pod1) = PodRequestsTPUs (Spec pod).
Proof.
  intros Hreq. unfold addLabels. unfold_M. intros Hrun.
  repeat case_match; simplify_eq; try done;
    by rewrite applyExclusivePlacement_requests.
Qed.

(** Writing an absent key keeps what the map holds. *)
Lemma insert_absent_keeps (m : gmap string string) k x key v :
  m !! k = None → m !! key = Some v → <[k:=x]> m !! key = Some v.
Proof. intros Hk Hv. rewrite lookup_insert_ne; [done | congruence]. Qed.

(** The labelling block writes a label over an existing one in one case
    only: the worker index of a worker. *)
Lemma addLabels_keeps_labels pod pod1 r key v :
  addLabels pod = (pod1, r) →
  Labels pod !! key = Some v →
  key ≠ WorkerIndexLabelKey ∨ LeaderPod pod = true →
  Labels pod1 !! key = Some v.
Proof.
  unfold addLabels. unfold_M. intros Hrun Hv Hkey.
  repeat case_match; simplify_eq; try done;
    rewrite ?(proj1 (proj2 (proj2 (applyExclusivePlacement_frame _ _))));
    simpl in *;
    try (destruct Hkey as [Hkey|Hkey]; [|done]);
    try (by rewrite lookup_insert_ne);
    repeat (apply insert_absent_keeps; [done|]); done.
Qed.

(** The group key label after the labelling block, on a leader. *)
Lemma addLabels_group_key pod pod1 :
  GroupIndexLabelKey ≠ GroupUniqueHashLabelKey →
  LeaderPod pod = true →
  addLabels pod = (pod1, inr tt) →
  Labels pod1 !! GroupUniqueHashLabelKey
  = Some (default (genGroupUniqueKey (Namespace pod) (Name pod))
                  (Labels pod !! GroupUniqueHashLabelKey)).
Proof.
  unfold addLabels. unfold_M. intros Hne Hl Hrun.
  repeat case_match; simplify_eq;
    rewrite ?(proj1 (proj2 (proj2 (applyExclusivePlacement_frame _ _))));
    simpl in *; by simplify_map_eq.
Qed.

(** The worker index label after the labelling block, on a worker. *)
Lemma addLabels_worker_index pod pod1 :
  LeaderPod pod = false →
  addLabels pod = (pod1, inr tt) →
  Labels pod1 !! WorkerIndexLabelKey
  = Some (Sprint (GetParentNameAndOrdinal (Name pod)).2).
Proof.
  unfold addLabels. unfold_M. intros Hl Hrun.
  repeat case_match; simplify_eq. simpl. by rewrite lookup_insert_eq.
Qed.

(** The accelerator block does nothing on a pod that requests no TPU. *)
Lemma injectEnvVars_noop pod :
  PodRequestsTPUs (Spec pod) = false → injectEnvVars pod = (pod, inr tt).
Proof. intros Hreq. unfold injectEnvVars. unfold_M. by rewrite Hreq. Qed.

(** It fails when the size annotation is missing. *)
Lemma injectEnvVars_missing_size pod :
  PodRequestsTPUs (Spec pod) = true →
  Annotations pod !! SizeAnnotationKey = None →
  injectEnvVars pod = (pod, inl (ErrSizeAnnotationMissing (Name pod))).
Proof. intros Hreq Hs. unfold injectEnvVars. unfold_M. by rewrite Hreq, Hs. Qed.

Lemma injectEnvVars_labels pod pod2 r :
  variablesKeepLabels →
  injectEnvVars pod = (pod2, r) → Labels pod2 = Labels pod.
Proof.
  intros Hkeep. unfold injectEnvVars. unfold_M. intros Hrun.
  repeat case_match; simplify_eq; try done.
  all: match goal with
       | H : AddTPUVariables ?p ?n = _ |- _ =>
           pose proof (Hkeep p n) as Hk; by rewrite H in Hk
       end.
Qed.

(** On a leader, the placement step runs with the value of the group key
    label. *)
Lemma addLabels_placement pod pod1 :
  GroupIndexLabelKey ≠ GroupUniqueHashLabelKey →
  LeaderPod pod = true →
  addLabels pod = (pod1, inr tt) →
  Spec pod1
  = Spec (applyExclusivePlacement
            (default (genGroupUniqueKey (Namespace pod) (Name pod))
                     (Labels pod !! GroupUniqueHashLabelKey)) pod).
Proof.
  unfold addLabels. unfold_M. intros Hne Hl Hrun.
  repeat case_match; simplify_eq; simpl in *;
    unfold applyExclusivePlacement; simpl;
    repeat match goal with
           | H : <[_:=_]> _ !! _ = _ |- _ =>
               rewrite lookup_insert in H; case_decide; simplify_eq
           end;
    repeat match goal with
           | H : Labels _ !! _ = _ |- _ => rewrite H
           end; simpl;
    by destruct (_ && _).
Qed.

(** The labelling block on a leader that has its group index: the name is
    not read, and the label stays. *)
Lemma addLabels_indexed_leader pod v :
  LeaderPod pod = true →
  Labels pod !! GroupIndexLabelKey = Some v →
  ∃ pod1, addLabels pod = (pod1, inr tt)
          ∧ Labels pod1 !! GroupIndexLabelKey = Some v.
Proof.
  intros Hl Hv.
  assert (∃ pod1, addLabels pod = (pod1, inr tt)) as [pod1 E1].
  { unfold addLabels. unfold_M. rewrite Hl, Hv.
    destruct (Labels pod !! GroupUniqueHashLabelKey); by eauto. }
  exists pod1. split; [done|].
  apply (addLabels_keeps_labels _ _ _ _ _ E1 Hv). by right.
Qed.

(** C4, as the code has it: a group member whose name is not of the form
    [<prefix>-<non-negative integer>] is rejected whenever [Default] reads
    the ordinal off the name, that is for a worker and for a leader without
    group index label: the error is the parsing error, and the pod is left
    as it came, no label is written.  A leader that already carries the
    group index label is not parsed: the labelling block returns no error
    and keeps the label, [Default] returns what the accelerator block
    returns on the labelled pod, which is that pod without error when it
    requests no TPU, and the label is still there in the pod [Default]
    returns when [AddTPUVariables] keeps the labels. *)
Theorem unparsable_name_is_rejected (pod : Pod) :
  groupMember pod →
  ¬ ordinalName (Name pod) →
  (LeaderPod pod = false ∨ Labels pod !! GroupIndexLabelKey = None →
   Default (ObjPod pod) = (ObjPod pod, Some (ErrParsingOrdinal (Name pod))))
  ∧ (∀ v,
       LeaderPod pod = true →
       Labels pod !! GroupIndexLabelKey = Some v →
       ∃ pod1,
         addLabels pod = (pod1, inr tt)
         ∧ Labels pod1 !! GroupIndexLabelKey = Some v
         ∧ Default (ObjPod pod)
           = (ObjPod (injectEnvVars pod1).1,
              match (injectEnvVars pod1).2 with
              | inl e => Some e
              | inr _ => None
              end)
         ∧ (PodRequestsTPUs (Spec pod1) = false →
            Default (ObjPod pod) = (ObjPod pod1, None))
         ∧ (variablesKeepLabels →
            ∀ pod' e, Default (ObjPod pod) = (ObjPod pod', e) →
                      Labels pod' !! GroupIndexLabelKey = Some v)).
Proof.
  intros Hm Hname. split; [by apply Default_parsing_error|].
  intros v Hl Hv.
  destruct (addLabels_indexed_leader pod v Hl Hv) as (pod1 & E1 & Hlab).
  exists pod1. split; [done|]. split; [done|].
  rewrite (Default_member pod Hm), E1.
  destruct (injectEnvVars pod1) as [pod2 r2] eqn:E2. simpl.
  split; [by destruct r2 as [err|[]]|]. split.
  - intros Htpu. rewrite injectEnvVars_noop in E2 by done. by simplify_eq.
  - intros Hkeep pod' e Hrun.
    pose proof (injectEnvVars_labels _ _ _ Hkeep E2) as Hl2.
    destruct r2 as [err|[]]; simplify_eq; by rewrite Hl2.
Qed.

(** C5: accelerator injection.  Let whether a pod requests TPUs be read off
    its containers.  A group member that requests TPUs and has no size
    annotation is rejected: [Default] returns an error, the missing
    annotation or else the parsing error of the labelling block, and no
    container is touched.  On a group member that requests none, the
    accelerator block does nothing: it returns the pod the labelling block
    left, without error, and the containers are those of the request. *)
Theorem accelerator_injection_needs_the_size (pod : Pod) :
  requestsIgnoreAffinity →
  groupMember pod →
  (PodRequestsTPUs (Spec pod) = true →
   Annotations pod !! SizeAnnotationKey = None →
   ∃ pod' e,
     Default (ObjPod pod) = (ObjPod pod', Some e)
     ∧ (e = ErrSizeAnnotationMissing (Name pod) ∨ e = ErrParsingOrdinal (Name pod))
     ∧ Containers (Spec pod') = Containers (Spec pod)
     ∧ InitContainers (Spec pod') = InitContainers (Spec pod))
  ∧ (PodRequestsTPUs (Spec pod) = false →
     ∃ pod1 r,
       addLabels pod = (pod1, r)
       ∧ injectEnvVars pod1 = (pod1, inr tt)
       ∧ Default (ObjPod pod)
         = (ObjPod pod1, match r with inl e => Some e | inr _ => None end)
       ∧ Containers (Spec pod1) = Containers (Spec pod)
       ∧ InitContainers (Spec pod1) = InitContainers (Spec pod)).
Proof.
  intros Hreq Hm. rewrite (Default_member pod Hm).
  destruct (addLabels pod) as [pod1 r] eqn:E1.
  pose proof (addLabels_frame _ _ _ E1) as (Hn & _ & Ha & Hc & Hi).
  pose proof (addLabels_requests _ _ _ Hreq E1) as Hr.
  split.
  - intros Htpu Hsize. destruct r as [e|[]].
    + apply addLabels_error in E1 as [-> ->]. eauto 10.
    + rewrite injectEnvVars_missing_size by congruence.
      rewrite Hn. eauto 10.
  - intros Htpu. exists pod1, r.
    rewrite injectEnvVars_noop by congruence.
    by destruct r as [e|[]].
Qed.

(** C7: the group unique key of a leader.  The key is the hash of
    [namespace/name].  On a leader that [Default] admits, the group key
    label ends up with that hash when the label was absent, and with the
    value it had when it was present; and that same value is the key the
    placement step is run with. *)
Theorem group_key_is_computed_only_when_absent (pod pod' : Pod) :
  GroupIndexLabelKey ≠ GroupUniqueHashLabelKey →
  variablesKeepLabels →
  groupMember pod →
  LeaderPod pod = true →
  Default (ObjPod pod) = (ObjPod pod', None) →
  let hash := Sha1Hash (Namespace pod +:+ "/" +:+ Name pod) in
  genGroupUniqueKey (Namespace pod) (Name pod) = hash
  ∧ (Labels pod !! GroupUniqueHashLabelKey = None →
     Labels pod' !! GroupUniqueHashLabelKey = Some hash)
  ∧ (∀ v, Labels pod !! GroupUniqueHashLabelKey = Some v →
          Labels pod' !! GroupUniqueHashLabelKey = Some v)
  ∧ ∃ pod1 groupUniqueKey,
      addLabels pod = (pod1, inr tt)
      ∧ Labels pod' !! GroupUniqueHashLabelKey = Some groupUniqueKey
      ∧ Spec pod1 = Spec (applyExclusivePlacement groupUniqueKey pod).
Proof.
  intros Hne Hkeep Hm Hl. rewrite (Default_member pod Hm).
  destruct (addLabels pod) as [pod1 [e|[]]] eqn:E1; [done|].
  destruct (injectEnvVars pod1) as [pod2 [e|[]]] eqn:E2; [done|].
  intros [= <-]. simpl.
  rewrite (injectEnvVars_labels _ _ _ Hkeep E2).
  rewrite (addLabels_group_key _ _ Hne Hl E1).
  split; [done|]. split; [by intros ->|]. split; [by intros v ->|].
  eexists pod1, _. split; [done|]. split; [done|].
  by apply addLabels_placement.
Qed.

(** C8, as the code has it: [Default] never writes over a label that the
    group member already carries, whatever its key, with one exception: on
    a worker the worker index label is written at every admission, with the
    ordinal of the pod name, whether the label was there or not. *)
Theorem existing_labels_are_kept
    (pod pod' : Pod) (e : option Error) (key v : string) :
  variablesKeepLabels →
  groupMember pod →
  Default (ObjPod pod) = (ObjPod pod', e) →
  (Labels pod !! key = Some v →
   key ≠ WorkerIndexLabelKey ∨ LeaderPod pod = true →
   Labels pod' !! key = Some v)
  ∧ (LeaderPod pod = false → e = None →
     Labels pod' !! WorkerIndexLabelKey
     = Some (Sprint (GetParentNameAndOrdinal (Name pod)).2)).
Proof.
  intros Hkeep Hm. rewrite (Default_member pod Hm).
  destruct (addLabels pod) as [pod1 r] eqn:E1.
  assert (∃ pod2 r2, injectEnvVars pod1 = (pod2, r2)) as (pod2 & r2 & E2)
    by (destruct (injectEnvVars pod1); eauto).
  pose proof (injectEnvVars_labels _ _ _ Hkeep E2) as Hl2.
  intros Hrun. split.
  - intros Hv Hkey.
    pose proof (addLabels_keeps_labels _ _ _ _ _ E1 Hv Hkey) as Hl1.
    destruct r as [err|[]]; [by simplify_eq|].
    rewrite E2 in Hrun. destruct r2 as [err|[]]; simplify_eq; by rewrite Hl2.
  - intros Hw ->. destruct r as [err|[]]; [done|].
    rewrite E2 in Hrun. destruct r2 as [err|[]]; simplify_eq.
    rewrite Hl2. by apply addLabels_worker_index.
Qed.

(** *** More on exclusive placement *)

(** The loop of [exclusiveAffinityApplied] finds a term with the key. *)
Lemma hasTopologyKey_iff topologyKey terms :
  hasTopologyKey topologyKey terms = true
  ↔ ∃ t, t ∈ terms ∧ TopologyKey t = topologyKey.
Proof.
  induction terms as [|t terms IH] using rev_ind.
  - split; [done|]. intros (t & Ht & _). by apply not_elem_of_nil in Ht.
  - rewrite hasTopologyKey_snoc.
    destruct (String.eqb_spec (TopologyKey t) topologyKey) as [Heq|Hne].
    + split; [|done]. intros _. exists t. split; [|done].
      apply elem_of_app. right. by apply list_elem_of_singleton.
    + rewrite IH. split.
      * intros (t' & Ht' & Hk). exists t'. split; [|done].
        apply elem_of_app. by left.
      * intros (t' & [Ht'|Ht']%elem_of_app & Hk); [by eauto|].
        apply list_elem_of_singleton in Ht' as ->. done.
Qed.

(** X1: [exclusiveAffinityApplied] holds exactly when the required
    affinity terms and the required anti-affinity terms of the pod both
    contain a term scoped to the topology key of the annotation (the empty
    key when the annotation is absent).  The label selectors of those terms
    are not looked at, and an absent structure counts as an empty list. *)
Theorem exclusiveAffinityApplied_iff (pod : Pod) :
  let topologyKey := index (Annotations pod) ExclusiveKeyAnnotationKey in
  exclusiveAffinityApplied pod = true
  ↔ (∃ t, t ∈ requiredAffinityTerms pod ∧ TopologyKey t = topologyKey)
    ∧ (∃ t, t ∈ requiredAntiAffinityTerms pod ∧ TopologyKey t = topologyKey).
Proof.
  simpl. rewrite <- !hasTopologyKey_iff.
  unfold exclusiveAffinityApplied, requiredAffinityTerms, requiredAntiAffinityTerms.
  destruct (spec_Affinity (Spec pod)) as [[na [pa|] [paa|]]|]; simpl;
    rewrite ?andb_true_iff; unfold hasTopologyKey; simpl;
    first [ done | split; [done | by intros []] ].
Qed.

(** The labelling block leaves the spec alone on a worker, and on a leader
    for which the gate of the placement step is closed. *)
Lemma addLabels_spec_unchanged pod pod1 r :
  addLabels pod = (pod1, r) →
  LeaderPod pod = false
  ∨ Annotations pod !! ExclusiveKeyAnnotationKey = None
  ∨ exclusiveAffinityApplied pod = true →
  Spec pod1 = Spec pod.
Proof.
  unfold addLabels. unfold_M. intros Hrun Hgate.
  assert (LeaderPod pod = true →
          bool_decide (is_Some (Annotations pod !! ExclusiveKeyAnnotationKey))
          && negb (exclusiveAffinityApplied pod) = false) as Hclosed.
  { intros Hl. destruct Hgate as [Hw|[Ha|Ha]].
    - congruence.
    - rewrite Ha. done.
    - rewrite Ha. apply andb_false_r. }
  repeat case_match; simplify_eq; try done;
    unfold applyExclusivePlacement; simpl;
    unfold exclusiveAffinityApplied; simpl;
    unfold exclusiveAffinityApplied in Hclosed; by rewrite Hclosed.
Qed.

Lemma Default_spec_unchanged pod pod' e :
  groupMember pod →
  PodRequestsTPUs (Spec pod) = false →
  LeaderPod pod = false
  ∨ Annotations pod !! ExclusiveKeyAnnotationKey = None
  ∨ exclusiveAffinityApplied pod = true →
  Default (ObjPod pod) = (ObjPod pod', e) →
  Spec pod' = Spec pod.
Proof.
  intros Hm Htpu Hgate. rewrite (Default_member pod Hm).
  destruct (addLabels pod) as [pod1 r] eqn:E1.
  pose proof (addLabels_spec_unchanged _ _ _ E1 Hgate) as Hs.
  destruct r as [err|[]]; [intros Hrun; by simplify_eq|].
  rewrite injectEnvVars_noop by (by rewrite Hs). intros Hrun. by simplify_eq.
Qed.

(** X2: terms of any origin close the gate.  When the pod already has a
    required affinity term and a required anti-affinity term scoped to the
    topology key of the annotation, whatever their label selectors,
    [Default] adds no exclusive placement term: on a group member that
    requests no TPU the spec comes back as it was. *)
Theorem existing_terms_suppress_placement
    (pod pod' : Pod) (e : option Error) (t t' : PodAffinityTerm) :
  groupMember pod →
  PodRequestsTPUs (Spec pod) = false →
  t ∈ requiredAffinityTerms pod →
  t' ∈ requiredAntiAffinityTerms pod →
  TopologyKey t = index (Annotations pod) ExclusiveKeyAnnotationKey →
  TopologyKey t' = index (Annotations pod) ExclusiveKeyAnnotationKey →
  Default (ObjPod pod) = (ObjPod pod', e) →
  Spec pod' = Spec pod.
Proof.
  intros Hm Htpu Ht Ht' Hk Hk' Hrun.
  apply (Default_spec_unchanged pod pod' e Hm Htpu); [|done].
  right. right. apply exclusiveAffinityApplied_iff.
  split; [by exists t | by exists t'].
Qed.

(** X3: [Default] writes affinity terms on annotated leaders only.  On a
    group member that requests no TPU and is a worker, or a leader without
    the exclusive placement annotation, the spec comes back as it was. *)
Theorem placement_needs_an_annotated_leader
    (pod pod' : Pod) (e : option Error) :
  groupMember pod →
  PodRequestsTPUs (Spec pod) = false →
  LeaderPod pod = false ∨ Annotations pod !! ExclusiveKeyAnnotationKey = None →
  Default (ObjPod pod) = (ObjPod pod', e) →
  Spec pod' = Spec pod.
Proof.
  intros Hm Htpu Hgate Hrun.
  apply (Default_spec_unchanged pod pod' e Hm Htpu); [|done].
  destruct Hgate; by eauto.
Qed.

(** X8: the two terms of a group divide the labelled pods.  Under the
    label selector semantics, no pod is selected by both the affinity term
    and the anti-affinity term of a key; a pod that carries the group key
    label is selected by exactly one of them; a pod without the label by
    neither. *)
Theorem term_pair_divides_labelled_pods
    (k topologyKey topologyKey' : string) (labels : gmap string string) :
  termMatches (affinityTerm k topologyKey) labels
  && termMatches (antiAffinityTerm k topologyKey') labels = false
  ∧ (is_Some (labels !! GroupUniqueHashLabelKey) →
     xorb (termMatches (affinityTerm k topologyKey) labels)
          (termMatches (antiAffinityTerm k topologyKey') labels) = true)
  ∧ (labels !! GroupUniqueHashLabelKey = None →
     termMatches (affinityTerm k topologyKey) labels = false
     ∧ termMatches (antiAffinityTerm k topologyKey') labels = false).
Proof.
  rewrite affinityTerm_matches, antiAffinityTerm_matches.
  destruct (labels !! GroupUniqueHashLabelKey) as [v|] eqn:E.
  - destruct (decide (v = k)) as [->|Hne].
    + rewrite bool_decide_eq_true_2 by done.
      rewrite (bool_decide_eq_false_2 (k ≠ k)) by (by intros []). done.
    + rewrite bool_decide_eq_false_2 by congruence.
      rewrite (bool_decide_eq_true_2 (v ≠ k)) by done. done.
  - rewrite bool_decide_eq_false_2 by done.
    split; [done|]. split; [by intros [? ?]|done].
Qed.

(** *** More on the labelling block *)

(** The block on a leader that has both identity labels. *)
Lemma addLabels_leader_labelled pod key :
  LeaderPod pod = true →
  is_Some (Labels pod !! GroupIndexLabelKey) →
  Labels pod !! GroupUniqueHashLabelKey = Some key →
  addLabels pod = (applyExclusivePlacement key pod, inr tt).
Proof.
  intros Hl [v Hv] Hk. unfold addLabels. unfold_M. by rewrite Hl, Hv, Hk.
Qed.

(** What the block leaves on a leader: both labels, and a pod that went
    through the placement step with the value of the group key label. *)
Lemma addLabels_leader_result pod pod1 :
  LeaderPod pod = true →
  addLabels pod = (pod1, inr tt) →
  is_Some (Labels pod1 !! GroupIndexLabelKey)
  ∧ ∃ key pod0,
      pod1 = applyExclusivePlacement key pod0
      ∧ Annotations pod0 = Annotations pod
      ∧ Labels pod1 !! GroupUniqueHashLabelKey = Some key.
Proof.
  unfold addLabels. unfold_M. intros Hl Hrun.
  repeat case_match; simplify_eq;
    rewrite ?(proj1 (proj2 (proj2 (applyExclusivePlacement_frame _ _))));
    simpl in *;
    (split;
     [ rewrite ?lookup_insert_is_Some'; by eauto
     | eexists _, _; split; [reflexivity|]; split; [reflexivity|];
       rewrite ?(proj1 (proj2 (proj2 (applyExclusivePlacement_frame _ _))));
       simpl; first [ done | by rewrite lookup_insert_eq ] ]).
Qed.

(** What the block leaves on a worker. *)
Lemma addLabels_worker_result pod pod1 :
  LeaderPod pod = false →
  addLabels pod = (pod1, inr tt) →
  pod1 = set_Labels
           <[WorkerIndexLabelKey := Sprint (GetParentNameAndOrdinal (Name pod)).2]> pod
  ∧ (GetParentNameAndOrdinal (Name pod)).2 ≠ -1.
Proof.
  unfold addLabels. unfold_M. intros Hl Hrun.
  repeat case_match; simplify_eq. split; [done|].
  match goal with
  | Hb : bool_decide _ = false |- _ => by apply bool_decide_eq_false_1 in Hb
  end.
Qed.

(** The block does not fail on a well-formed name. *)
Lemma addLabels_ok pod :
  ordinalName (Name pod) → ∃ pod1, addLabels pod = (pod1, inr tt).
Proof.
  intros Hn%GetParentNameAndOrdinal_found.
  unfold addLabels. unfold_M.
  rewrite bool_decide_eq_false_2 by done.
  repeat case_match; simplify_eq; by eauto.
Qed.

(** The block removes no label. *)
Lemma addLabels_is_Some pod pod1 r key :
  addLabels pod = (pod1, r) →
  is_Some (Labels pod !! key) → is_Some (Labels pod1 !! key).
Proof.
  unfold addLabels. unfold_M. intros Hrun Hk.
  repeat case_match; simplify_eq; try done;
    rewrite ?(proj1 (proj2 (proj2 (applyExclusivePlacement_frame _ _))));
    simpl; rewrite ?lookup_insert_is_Some'; by eauto.
Qed.

(** Running the block on its own result changes nothing. *)
Lemma addLabels_idempotent pod pod1 :
  addLabels pod = (pod1, inr tt) →
  LeaderPod pod1 = LeaderPod pod →
  addLabels pod1 = (pod1, inr tt).
Proof.
  intros Hrun Hsame. destruct (LeaderPod pod) eqn:Hl.
  - destruct (addLabels_leader_result _ _ Hl Hrun)
      as (Hgi & key & pod0 & Hpod1 & _ & Hkey).
    rewrite (addLabels_leader_labelled pod1 key Hsame Hgi Hkey).
    f_equal. rewrite Hpod1. apply applyExclusivePlacement_twice.
  - destruct (addLabels_worker_result _ _ Hl Hrun) as [-> Hord].
    unfold addLabels. unfold_M. rewrite Hsame. simpl.
    rewrite bool_decide_eq_false_2 by done.
    unfold set_Labels. simpl. by rewrite insert_insert_eq.
Qed.

(** The group index label of a leader that comes without one. *)
Lemma addLabels_group_index pod pod1 r n :
  LeaderPod pod = true →
  Labels pod !! GroupIndexLabelKey = None →
  (GetParentNameAndOrdinal (Name pod)).2 = n →
  n ≠ -1 →
  addLabels pod = (pod1, r) →
  r = inr tt ∧ Labels pod1 !! GroupIndexLabelKey = Some (Sprint n).
Proof.
  unfold addLabels. unfold_M. intros Hl Hgi <- Hn.
  rewrite Hl, Hgi. rewrite bool_decide_eq_false_2 by done. intros Hrun.
  repeat case_match; simplify_eq; (split; [done|]);
    rewrite ?(proj1 (proj2 (proj2 (applyExclusivePlacement_frame _ _))));
    simpl in *.
  - by rewrite lookup_insert_eq.
  - match goal with
    | Hnone : <[_:=_]> _ !! _ = None |- _ =>
        apply lookup_insert_None in Hnone as [_ Hne]
    end.
    rewrite lookup_insert_ne by done. by rewrite lookup_insert_eq.
Qed.

(** The keys the block writes. *)
Lemma addLabels_other_labels pod pod1 r key :
  addLabels pod = (pod1, r) →
  (LeaderPod pod = true → key ≠ GroupIndexLabelKey ∧ key ≠ GroupUniqueHashLabelKey) →
  (LeaderPod pod = false → key ≠ WorkerIndexLabelKey) →
  Labels pod1 !! key = Labels pod !! key.
Proof.
  unfold addLabels. unfold_M. intros Hrun Hleader Hworker.
  repeat case_match; simplify_eq; try done;
    rewrite ?(proj1 (proj2 (proj2 (applyExclusivePlacement_frame _ _))));
    simpl;
    try (destruct Hleader as [? ?]; [done|]);
    try (specialize (Hworker eq_refl));
    repeat (rewrite lookup_insert_ne; [|congruence]); done.
Qed.

(** An annotated pod leaves the placement step with the terms applied. *)
Lemma applyExclusivePlacement_applied k pod :
  is_Some (Annotations pod !! ExclusiveKeyAnnotationKey) →
  exclusiveAffinityApplied (applyExclusivePlacement k pod) = true.
Proof.
  intros Ha. unfold applyExclusivePlacement.
  rewrite (bool_decide_eq_true_2 _ Ha). simpl.
  destruct (exclusiveAffinityApplied pod) eqn:E; simpl; [done|].
  apply SetExclusiveAffinities_applied.
Qed.

(** *** More on [Default] *)

(** X4: the group index of a leader is the ordinal of its name.  Let
    [AddTPUVariables] keep the labels.  On a leader named [<parent>-<k>]
    that comes without group index label, [Default] writes the label with
    [k] in decimal, whatever the outcome of the accelerator block. *)
Theorem leader_group_index_is_the_ordinal
    (pod pod' : Pod) (e : option Error) (parent : string) (k : N) :
  variablesKeepLabels →
  groupMember pod →
  LeaderPod pod = true →
  Labels pod !! GroupIndexLabelKey = None →
  Name pod = parent +:+ "-" +:+ Sprint (Z.of_N k) →
  Default (ObjPod pod) = (ObjPod pod', e) →
  Labels pod' !! GroupIndexLabelKey = Some (Sprint (Z.of_N k)).
Proof.
  intros Hkeep Hm Hl Hgi Hname. rewrite (Default_member pod Hm).
  destruct (addLabels pod) as [pod1 r] eqn:E1.
  assert ((GetParentNameAndOrdinal (Name pod)).2 = Z.of_N k) as Hord.
  { rewrite Hname.
    by rewrite (GetParentNameAndOrdinal_numeral _ _ _ (parseUint_Sprint k)). }
  destruct (addLabels_group_index _ _ _ _ Hl Hgi Hord ltac:(lia) E1) as [-> Hlab].
  destruct (injectEnvVars pod1) as [pod2 r2] eqn:E2.
  pose proof (injectEnvVars_labels _ _ _ Hkeep E2) as Hl2.
  intros Hrun. destruct r2 as [err|[]]; simplify_eq; by rewrite Hl2.
Qed.

(** X5: [Default] is idempotent on pods that request no TPU.  Let whether
    a pod requests TPUs be read off its containers.  When [Default] admits
    a group member that requests no TPU, and the pod it returns is still
    read as a leader, or still as a worker, then [Default] admits the
    returned pod and returns it unchanged. *)
Theorem Default_is_idempotent (pod pod' : Pod) :
  requestsIgnoreAffinity →
  groupMember pod →
  PodRequestsTPUs (Spec pod) = false →
  Default (ObjPod pod) = (ObjPod pod', None) →
  LeaderPod pod' = LeaderPod pod →
  Default (ObjPod pod') = (ObjPod pod', None).
Proof.
  intros Hreq Hm Htpu. rewrite (Default_member pod Hm).
  destruct (addLabels pod) as [pod1 [err|[]]] eqn:E1; [done|].
  pose proof (addLabels_requests _ _ _ Hreq E1) as Hr.
  rewrite injectEnvVars_noop by congruence.
  intros [= <-] Hsame.
  assert (groupMember pod1) as Hm1 by (by eapply addLabels_is_Some).
  rewrite (Default_member pod1 Hm1).
  rewrite (addLabels_idempotent _ _ E1 Hsame).
  by rewrite injectEnvVars_noop by congruence.
Qed.

(** X6: a failure of the accelerator block comes after the labelling.  On
    a group member with a well-formed name that requests TPUs, a missing
    size annotation, or one that [Atoi] rejects, makes [Default] return
    that error together with the pod as the labelling block left it: the
    identity labels and the placement terms are already written. *)
Theorem accelerator_errors_return_the_labelled_pod (pod : Pod) :
  requestsIgnoreAffinity →
  groupMember pod →
  ordinalName (Name pod) →
  PodRequestsTPUs (Spec pod) = true →
  ∃ pod1,
    addLabels pod = (pod1, inr tt)
    ∧ (Annotations pod !! SizeAnnotationKey = None →
       Default (ObjPod pod)
       = (ObjPod pod1, Some (ErrSizeAnnotationMissing (Name pod))))
    ∧ (∀ size err,
         Annotations pod !! SizeAnnotationKey = Some size →
         Atoi size = inl err →
         Default (ObjPod pod) = (ObjPod pod1, Some err)).
Proof.
  intros Hreq Hm Hname Htpu. destruct (addLabels_ok pod Hname) as [pod1 E1].
  exists pod1. split; [done|]. rewrite (Default_member pod Hm), E1.
  pose proof (addLabels_frame _ _ _ E1) as (Hn & _ & Ha & _).
  pose proof (addLabels_requests _ _ _ Hreq E1) as Hr.
  unfold injectEnvVars. unfold_M. rewrite Hr, Htpu, Ha, Hn.
  split; [by intros ->|]. by intros size err -> ->.
Qed.

(** X7: the labels [Default] writes.  Let [AddTPUVariables] keep the
    labels.  On a leader every label other than the group index and the
    group key is as it was, present or absent; on a worker every label
    other than the worker index is. *)
Theorem Default_writes_the_identity_labels_only
    (pod pod' : Pod) (e : option Error) (key : string) :
  variablesKeepLabels →
  groupMember pod →
  Default (ObjPod pod) = (ObjPod pod', e) →
  (LeaderPod pod = true →
   key ≠ GroupIndexLabelKey → key ≠ GroupUniqueHashLabelKey →
   Labels pod' !! key = Labels pod !! key)
  ∧ (LeaderPod pod = false →
     key ≠ WorkerIndexLabelKey →
     Labels pod' !! key = Labels pod !! key).
Proof.
  intros Hkeep Hm. rewrite (Default_member pod Hm).
  destruct (addLabels pod) as [pod1 r] eqn:E1.
  destruct (injectEnvVars pod1) as [pod2 r2] eqn:E2.
  pose proof (injectEnvVars_labels _ _ _ Hkeep E2) as Hl2.
  intros Hrun.
  assert (Labels pod' = Labels pod1) as ->.
  { destruct r as [err|[]]; [by simplify_eq|].
    destruct r2 as [err|[]]; by simplify_eq. }
  split.
  - intros Hl Hgi Hgk. apply (addLabels_other_labels _ _ _ _ E1); [done|congruence].
  - intros Hl Hwi. apply (addLabels_other_labels _ _ _ _ E1); [congruence|done].
Qed.

(** X9: what the group key tells apart.  The key is the hash of the
    namespace, a slash and the name.  For two leaders whose namespaces hold
    no slash, as the namespaces of Kubernetes do, the two hashed strings
    are equal only when namespace and name are; so the keys are equal
    exactly when namespace and name are, unless the hash collides on these
    two strings. *)
Theorem group_key_separates_leaders (ns1 name1 ns2 name2 : string) :
  hasSlash ns1 = false →
  hasSlash ns2 = false →
  (ns1 +:+ "/" +:+ name1 = ns2 +:+ "/" +:+ name2 ↔ ns1 = ns2 ∧ name1 = name2)
  ∧ ((Sha1Hash (ns1 +:+ "/" +:+ name1) = Sha1Hash (ns2 +:+ "/" +:+ name2) →
      ns1 +:+ "/" +:+ name1 = ns2 +:+ "/" +:+ name2) →
     (genGroupUniqueKey ns1 name1 = genGroupUniqueKey ns2 name2
      ↔ ns1 = ns2 ∧ name1 = name2)).
Proof.
  intros H1 H2.
  assert (ns1 +:+ "/" +:+ name1 = ns2 +:+ "/" +:+ name2
          ↔ ns1 = ns2 ∧ name1 = name2) as Hcut.
  { split; [by apply slash_cut_unique | by intros [-> ->]]. }
  split; [done|]. intros Hfree. unfold genGroupUniqueKey. split.
  - intros Heq%Hfree. by apply Hcut.
  - by intros [-> ->].
Qed.

(** X10: an admitted leader with the annotation has its placement terms.
    When [Default] admits a leader that carries the exclusive placement
    annotation and requests no TPU, [exclusiveAffinityApplied] holds of the
    returned pod: both required lists hold a term scoped to the topology
    key of the annotation. *)
Theorem admitted_leader_has_placement (pod pod' : Pod) :
  requestsIgnoreAffinity →
  groupMember pod →
  LeaderPod pod = true →
  is_Some (Annotations pod !! ExclusiveKeyAnnotationKey) →
  PodRequestsTPUs (Spec pod) = false →
  Default (ObjPod pod) = (ObjPod pod', None) →
  let topologyKey := index (Annotations pod) ExclusiveKeyAnnotationKey in
  exclusiveAffinityApplied pod' = true
  ∧ (∃ t, t ∈ requiredAffinityTerms pod' ∧ TopologyKey t = topologyKey)
  ∧ (∃ t, t ∈ requiredAntiAffinityTerms pod' ∧ TopologyKey t = topologyKey).
Proof.
  intros Hreq Hm Hl Ha Htpu. rewrite (Default_member pod Hm).
  destruct (addLabels pod) as [pod1 [err|[]]] eqn:E1; [done|].
  pose proof (addLabels_requests _ _ _ Hreq E1) as Hr.
  pose proof (addLabels_frame _ _ _ E1) as (_ & _ & Hann & _).
  rewrite injectEnvVars_noop by congruence. intros [= <-]. simpl.
  assert (exclusiveAffinityApplied pod1 = true) as Happlied.
  { destruct (addLabels_leader_result _ _ Hl E1)
      as (_ & key & pod0 & -> & Ha0 & _).
    apply applyExclusivePlacement_applied. by rewrite Ha0. }
  split; [done|]. rewrite <- Hann. by apply exclusiveAffinityApplied_iff.
Qed.

(** X11: the size handed to [AddTPUVariables].  On a group member with a
    well-formed name that requests TPUs and whose size annotation is an
    [int] [n] in decimal, [Default] calls [AddTPUVariables] on the labelled
    pod with [n], and returns the pod and the error of that call. *)
Theorem accelerator_block_passes_the_size (pod : Pod) (n : Z) :
  requestsIgnoreAffinity →
  groupMember pod →
  ordinalName (Name pod) →
  PodRequestsTPUs (Spec pod) = true →
  Annotations pod !! SizeAnnotationKey = Some (Sprint n) →
  intMin ≤ n ≤ intMax →
  ∃ pod1,
    addLabels pod = (pod1, inr tt)
    ∧ Default (ObjPod pod)
      = (ObjPod (AddTPUVariables pod1 n).1, (AddTPUVariables pod1 n).2).
Proof.
  intros Hreq Hm Hname Htpu Hsize Hn.
  destruct (addLabels_ok pod Hname) as [pod1 E1].
  exists pod1. split; [done|]. rewrite (Default_member pod Hm), E1.
  pose proof (addLabels_frame _ _ _ E1) as (_ & _ & Ha & _).
  pose proof (addLabels_requests _ _ _ Hreq E1) as Hr.
  unfold injectEnvVars. unfold_M.
  rewrite Hr, Htpu, Ha, Hsize, (Atoi_Sprint n Hn).
  by destruct (AddTPUVariables pod1 n) as [pod2 [err|]].
Qed.

(** X12: a well-formed group member that requests no TPU is admitted.
    Let whether a pod requests TPUs be read off its containers.  Then
    [Default] returns no error on a group member whose name is of the form
    [<prefix>-<non-negative integer>] and that requests no TPU. *)
Theorem well_formed_member_is_admitted (pod : Pod) :
  requestsIgnoreAffinity →
  groupMember pod →
  ordinalName (Name pod) →
  PodRequestsTPUs (Spec pod) = false →
  (Default (ObjPod pod)).2 = None.
Proof.
  intros Hreq Hm Hname Htpu. destruct (addLabels_ok pod Hname) as [pod1 E1].
  rewrite (Default_member pod Hm), E1.
  pose proof (addLabels_requests _ _ _ Hreq E1) as Hr.
  by rewrite injectEnvVars_noop by congruence.
Qed.

(** X13: [SetExclusiveAffinities] itself is not idempotent.  Called twice
    without the gate it appends two terms to each required list, one per
    call, both scoped to the topology key of the annotation: only the check
    of [exclusiveAffinityApplied] in [Default] keeps the pair single. *)
Theorem SetExclusiveAffinities_twice_appends_two_pairs (pod : Pod) (k k' : string) :
  let topologyKey := index (Annotations pod) ExclusiveKeyAnnotationKey in
  let pod'' := SetExclusiveAffinities (SetExclusiveAffinities pod k) k' in
  requiredAffinityTerms pod''
  = requiredAffinityTerms pod
      ++ [affinityTerm k topologyKey; affinityTerm k' topologyKey]
  ∧ requiredAntiAffinityTerms pod''
    = requiredAntiAffinityTerms pod
        ++ [antiAffinityTerm k topologyKey; antiAffinityTerm k' topologyKey]
  ∧ applyExclusivePlacement k' (SetExclusiveAffinities pod k)
    = SetExclusiveAffinities pod k.
Proof.
  simpl.
  destruct (SetExclusiveAffinities_required (SetExclusiveAffinities pod k) k')
    as [-> ->].
  destruct (SetExclusiveAffinities_required pod k) as [-> ->].
  rewrite SetExclusiveAffinities_Annotations, <- !(assoc_L (++)).
  split; [done|]. split; [done|].
  apply applyExclusivePlacement_skip, SetExclusiveAffinities_applied.
Qed.

End WebhookProperties.

(** ** The properties at the concrete instance *)

Import Sample.

Lemma unmanaged_pod_passes_unmodified_witness :
  Labels strayPod !! SetNameLabelKey = None
  ∧ Default (ObjPod strayPod) = (ObjPod strayPod, None)
  ∧ validate (ObjPod strayPod) = ([], None).
Proof.
  split; [reflexivity|].
  apply (unmanaged_pod_passes_unmodified strayPod). reflexivity.
Defined.

(** C4 fails as stated: a leader that already carries a group index label
    is admitted although its name has no ordinal. *)
Lemma unparsable_leader_name_admitted :
  groupMember unnamedLeaderIndexed
  ∧ LeaderPod unnamedLeaderIndexed = true
  ∧ ¬ ordinalName (Name unnamedLeaderIndexed)
  ∧ (Default (ObjPod unnamedLeaderIndexed)).2 = None.
Proof.
  split; [by eexists|]. split; [reflexivity|].
  split; [by apply (bool_decide_eq_false_1 _)|]. by vm_compute.
Qed.

Lemma unparsable_name_is_rejected_witness :
  Default (ObjPod unnamedLeader)
  = (ObjPod unnamedLeader, Some (ErrParsingOrdinal (Name unnamedLeader)))
  ∧ ∃ pod1,
      addLabels unnamedLeaderIndexed = (pod1, inr tt)
      ∧ Labels pod1 !! GroupIndexLabelKey = Some "0"
      ∧ Default (ObjPod unnamedLeaderIndexed)
        = (ObjPod (injectEnvVars pod1).1,
           match (injectEnvVars pod1).2 with
           | inl e => Some e
           | inr _ => None
           end)
      ∧ (PodRequestsTPUs (Spec pod1) = false →
         Default (ObjPod unnamedLeaderIndexed) = (ObjPod pod1, None))
      ∧ (variablesKeepLabels →
         ∀ pod' e, Default (ObjPod unnamedLeaderIndexed) = (ObjPod pod', e) →
                   Labels pod' !! GroupIndexLabelKey = Some "0").
Proof.
  assert (groupMember unnamedLeader) as Hm by (by eexists).
  assert (groupMember unnamedLeaderIndexed) as Hm' by (by eexists).
  assert (¬ ordinalName (Name unnamedLeader)) as Hname
    by (by apply (bool_decide_eq_false_1 _)).
  assert (¬ ordinalName (Name unnamedLeaderIndexed)) as Hname'
    by (by apply (bool_decide_eq_false_1 _)).
  split.
  - apply (proj1 (unparsable_name_is_rejected unnamedLeader Hm Hname)).
    right. vm_compute. reflexivity.
  - apply (proj2 (unparsable_name_is_rejected unnamedLeaderIndexed Hm' Hname') "0").
    + vm_compute. reflexivity.
    + vm_compute. reflexivity.
Defined.

Lemma exclusive_placement_idempotent_witness :
  let once := applyExclusivePlacement "k1" leaderPod in
  let twice := applyExclusivePlacement "k2" once in
  let topologyKey := index (Annotations leaderPod) ExclusiveKeyAnnotationKey in
  twice = once
  ∧ applyExclusivePlacement "k2" once = once
  ∧ requiredAffinityTerms twice
    = requiredAffinityTerms leaderPod ++ [affinityTerm "k1" topologyKey]
  ∧ requiredAntiAffinityTerms twice
    = requiredAntiAffinityTerms leaderPod ++ [antiAffinityTerm "k1" topologyKey]
  ∧ exclusiveAffinityApplied twice = true.
Proof.
  intros once twice topologyKey.
  split; [apply (exclusive_placement_idempotent leaderPod "k1" "k2")|].
  split.
  - apply (proj1 (proj2 (exclusive_placement_idempotent once "k2" "k2"))).
    vm_compute. reflexivity.
  - apply (proj2 (proj2 (exclusive_placement_idempotent leaderPod "k1" "k2"))).
    + by eexists.
    + vm_compute. reflexivity.
Defined.

Lemma SetExclusiveAffinities_appends_the_term_pair_witness :
  let labelsA : gmap string string := {[ GroupUniqueHashLabelKey := "a" ]} in
  let labelsB : gmap string string := {[ GroupUniqueHashLabelKey := "b" ]} in
  let topologyKey := index (Annotations leaderPod) ExclusiveKeyAnnotationKey in
  termMatches (affinityTerm "a" topologyKey) labelsA = true
  ∧ termMatches (affinityTerm "a" topologyKey) labelsB = false
  ∧ termMatches (antiAffinityTerm "a" topologyKey) labelsA = false
  ∧ termMatches (antiAffinityTerm "a" topologyKey) labelsB = true
  ∧ termMatches (antiAffinityTerm "a" topologyKey) ∅ = false.
Proof.
  intros labelsA labelsB topologyKey.
  apply (proj2 (proj2 (proj2 (SetExclusiveAffinities_appends_the_term_pair
           leaderPod "a" "a" "b" labelsA labelsB ∅)))).
  - discriminate.
  - vm_compute. reflexivity.
  - vm_compute. reflexivity.
  - vm_compute. reflexivity.
Defined.

Lemma accelerator_injection_needs_the_size_witness :
  (∃ pod' e,
     Default (ObjPod tpuLeaderNoSize) = (ObjPod pod', Some e)
     ∧ (e = ErrSizeAnnotationMissing (Name tpuLeaderNoSize)
        ∨ e = ErrParsingOrdinal (Name tpuLeaderNoSize))
     ∧ Containers (Spec pod') = Containers (Spec tpuLeaderNoSize)
     ∧ InitContainers (Spec pod') = InitContainers (Spec tpuLeaderNoSize))
  ∧ (∃ pod1 r,
       addLabels leaderPod = (pod1, r)
       ∧ injectEnvVars pod1 = (pod1, inr tt)
       ∧ Default (ObjPod leaderPod)
         = (ObjPod pod1, match r with inl e => Some e | inr _ => None end)
       ∧ Containers (Spec pod1) = Containers (Spec leaderPod)
       ∧ InitContainers (Spec pod1) = InitContainers (Spec leaderPod)).
Proof.
  assert (requestsIgnoreAffinity) as Hreq by (intros s a; reflexivity).
  split.
  - assert (groupMember tpuLeaderNoSize) as Hm by (by eexists).
    apply (proj1 (accelerator_injection_needs_the_size tpuLeaderNoSize Hreq Hm)).
    + vm_compute. reflexivity.
    + vm_compute. reflexivity.
  - assert (groupMember leaderPod) as Hm by (by eexists).
    apply (proj2 (accelerator_injection_needs_the_size leaderPod Hreq Hm)).
    vm_compute. reflexivity.
Defined.

Lemma group_key_is_computed_only_when_absent_witness :
  Labels (admitted leaderPod) !! GroupUniqueHashLabelKey
  = Some (Sha1Hash (Namespace leaderPod +:+ "/" +:+ Name leaderPod))
  ∧ Labels (admitted labelledLeader) !! GroupUniqueHashLabelKey = Some "abc".
Proof.
  assert (GroupIndexLabelKey ≠ GroupUniqueHashLabelKey) as Hne by discriminate.
  assert (variablesKeepLabels) as Hkeep by (intros pod size; reflexivity).
  assert (groupMember leaderPod) as Hm by (by eexists).
  assert (groupMember labelledLeader) as Hm' by (by eexists).
  assert (LeaderPod leaderPod = true) as Hl by (vm_compute; reflexivity).
  assert (LeaderPod labelledLeader = true) as Hl' by (vm_compute; reflexivity).
  assert (Default (ObjPod leaderPod) = (ObjPod (admitted leaderPod), None))
    as Hrun by (vm_compute; reflexivity).
  assert (Default (ObjPod labelledLeader) = (ObjPod (admitted labelledLeader), None))
    as Hrun' by (vm_compute; reflexivity).
  split.
  - apply (proj1 (proj2 (group_key_is_computed_only_when_absent
             leaderPod (admitted leaderPod) Hne Hkeep Hm Hl Hrun))).
    vm_compute. reflexivity.
  - apply (proj1 (proj2 (proj2 (group_key_is_computed_only_when_absent
             labelledLeader (admitted labelledLeader) Hne Hkeep Hm' Hl' Hrun')))).
    vm_compute. reflexivity.
Defined.

(** C8 fails as stated: the worker index label of a worker is written over. *)
Lemma worker_index_is_overwritten :
  groupMember relabelledWorker
  ∧ Labels relabelledWorker !! WorkerIndexLabelKey = Some "7"
  ∧ Default (ObjPod relabelledWorker) = (ObjPod (admitted relabelledWorker), None)
  ∧ Labels (admitted relabelledWorker) !! WorkerIndexLabelKey = Some "3".
Proof.
  split; [by eexists|]. split; [vm_compute; reflexivity|].
  split; vm_compute; reflexivity.
Qed.

Lemma existing_labels_are_kept_witness :
  Labels (admitted labelledLeader) !! GroupIndexLabelKey = Some "7"
  ∧ Labels (admitted workerPod) !! WorkerIndexLabelKey
    = Some (Sprint (GetParentNameAndOrdinal (Name workerPod)).2).
Proof.
  assert (variablesKeepLabels) as Hkeep by (intros pod size; reflexivity).
  assert (groupMember labelledLeader) as Hm by (by eexists).
  assert (groupMember workerPod) as Hm' by (by eexists).
  assert (Default (ObjPod labelledLeader) = (ObjPod (admitted labelledLeader), None))
    as Hrun by (vm_compute; reflexivity).
  assert (Default (ObjPod workerPod) = (ObjPod (admitted workerPod), None))
    as Hrun' by (vm_compute; reflexivity).
  split.
  - apply (proj1 (existing_labels_are_kept labelledLeader (admitted labelledLeader)
                    None GroupIndexLabelKey "7" Hkeep Hm Hrun)).
    + vm_compute. reflexivity.
    + right. vm_compute. reflexivity.
  - apply (proj2 (existing_labels_are_kept workerPod (admitted workerPod)
                    None WorkerIndexLabelKey "" Hkeep Hm' Hrun')).
    + vm_compute. reflexivity.
    + reflexivity.
Defined.

(** ** The further properties at the concrete instance *)

Lemma exclusiveAffinityApplied_iff_witness :
  exclusiveAffinityApplied leaderWithUserTerms = true.
Proof.
  apply (proj2 (exclusiveAffinityApplied_iff leaderWithUserTerms)).
  split; exists userTerm; (split; [left | vm_compute; reflexivity]).
Defined.

Lemma existing_terms_suppress_placement_witness :
  Spec (admitted leaderWithUserTerms) = Spec leaderWithUserTerms.
Proof.
  apply (existing_terms_suppress_placement
           leaderWithUserTerms (admitted leaderWithUserTerms) None
           userTerm userTerm).
  - by eexists.
  - vm_compute. reflexivity.
  - left.
  - left.
  - vm_compute. reflexivity.
  - vm_compute. reflexivity.
  - vm_compute. reflexivity.
Defined.

Lemma placement_needs_an_annotated_leader_witness :
  Spec (admitted workerPod) = Spec workerPod.
Proof.
  apply (placement_needs_an_annotated_leader workerPod (admitted workerPod) None).
  - by eexists.
  - vm_compute. reflexivity.
  - left. vm_compute. reflexivity.
  - vm_compute. reflexivity.
Defined.

Lemma term_pair_divides_labelled_pods_witness :
  let labels : gmap string string := {[ GroupUniqueHashLabelKey := "b" ]} in
  xorb (termMatches (affinityTerm "a" "zone") labels)
       (termMatches (antiAffinityTerm "a" "zone") labels) = true
  ∧ termMatches (affinityTerm "a" "zone") ∅ = false
  ∧ termMatches (antiAffinityTerm "a" "zone") ∅ = false.
Proof.
  intros labels. split.
  - apply (proj1 (proj2 (term_pair_divides_labelled_pods "a" "zone" "zone" labels))).
    by eexists.
  - apply (proj2 (proj2 (term_pair_divides_labelled_pods "a" "zone" "zone" ∅))).
    vm_compute. reflexivity.
Defined.

Lemma leader_group_index_is_the_ordinal_witness :
  Labels (admitted leaderPod) !! GroupIndexLabelKey = Some (Sprint (Z.of_N 0)).
Proof.
  assert (variablesKeepLabels) as Hkeep by (intros pod size; reflexivity).
  apply (leader_group_index_is_the_ordinal
           leaderPod (admitted leaderPod) None "sample" 0%N Hkeep).
  - by eexists.
  - vm_compute. reflexivity.
  - vm_compute. reflexivity.
  - reflexivity.
  - vm_compute. reflexivity.
Defined.

Lemma Default_is_idempotent_witness :
  Default (ObjPod (admitted leaderPod)) = (ObjPod (admitted leaderPod), None)
  ∧ Default (ObjPod (admitted workerPod)) = (ObjPod (admitted workerPod), None).
Proof.
  assert (requestsIgnoreAffinity) as Hreq by (intros s a; reflexivity).
  split.
  - apply (Default_is_idempotent leaderPod (admitted leaderPod) Hreq).
    + by eexists.
    + vm_compute. reflexivity.
    + vm_compute. reflexivity.
    + vm_compute. reflexivity.
  - apply (Default_is_idempotent workerPod (admitted workerPod) Hreq).
    + by eexists.
    + vm_compute. reflexivity.
    + vm_compute. reflexivity.
    + vm_compute. reflexivity.
Defined.

Lemma accelerator_errors_return_the_labelled_pod_witness :
  (∃ pod1,
     addLabels tpuLeaderNoSize = (pod1, inr tt)
     ∧ Default (ObjPod tpuLeaderNoSize)
       = (ObjPod pod1, Some (ErrSizeAnnotationMissing (Name tpuLeaderNoSize))))
  ∧ (∃ pod1,
       addLabels tpuLeaderBadSize = (pod1, inr tt)
       ∧ Default (ObjPod tpuLeaderBadSize)
         = (ObjPod pod1, Some (ErrAtoiSyntax "four"))).
Proof.
  assert (requestsIgnoreAffinity) as Hreq by (intros s a; reflexivity).
  split.
  - assert (groupMember tpuLeaderNoSize) as Hm by (by eexists).
    assert (ordinalName (Name tpuLeaderNoSize)) as Hname
      by (apply (bool_decide_eq_true_1 _); reflexivity).
    assert (PodRequestsTPUs (Spec tpuLeaderNoSize) = true) as Htpu
      by (vm_compute; reflexivity).
    destruct (accelerator_errors_return_the_labelled_pod
                tpuLeaderNoSize Hreq Hm Hname Htpu) as (pod1 & E1 & Hmiss & _).
    exists pod1. split; [done|]. apply Hmiss. vm_compute. reflexivity.
  - assert (groupMember tpuLeaderBadSize) as Hm by (by eexists).
    assert (ordinalName (Name tpuLeaderBadSize)) as Hname
      by (apply (bool_decide_eq_true_1 _); reflexivity).
    assert (PodRequestsTPUs (Spec tpuLeaderBadSize) = true) as Htpu
      by (vm_compute; reflexivity).
    destruct (accelerator_errors_return_the_labelled_pod
                tpuLeaderBadSize Hreq Hm Hname Htpu) as (pod1 & E1 & _ & Hbad).
    exists pod1. split; [done|]. apply (Hbad "four").
    + vm_compute. reflexivity.
    + vm_compute. reflexivity.
Defined.

Lemma Default_writes_the_identity_labels_only_witness :
  Labels (admitted leaderPod) !! WorkerIndexLabelKey
  = Labels leaderPod !! WorkerIndexLabelKey
  ∧ Labels (admitted workerPod) !! GroupIndexLabelKey
    = Labels workerPod !! GroupIndexLabelKey.
Proof.
  assert (variablesKeepLabels) as Hkeep by (intros pod size; reflexivity).
  assert (groupMember leaderPod) as Hm by (by eexists).
  assert (groupMember workerPod) as Hm' by (by eexists).
  assert (Default (ObjPod leaderPod) = (ObjPod (admitted leaderPod), None))
    as Hrun by (vm_compute; reflexivity).
  assert (Default (ObjPod workerPod) = (ObjPod (admitted workerPod), None))
    as Hrun' by (vm_compute; reflexivity).
  split.
  - apply (proj1 (Default_writes_the_identity_labels_only leaderPod
                    (admitted leaderPod) None WorkerIndexLabelKey Hkeep Hm Hrun)).
    + vm_compute. reflexivity.
    + discriminate.
    + discriminate.
  - apply (proj2 (Default_writes_the_identity_labels_only workerPod
                    (admitted workerPod) None GroupIndexLabelKey Hkeep Hm' Hrun')).
    + vm_compute. reflexivity.
    + discriminate.
Defined.

(** The stand-in hash is one to one. *)
Lemma sample_hash_injective (x y : string) : Sha1Hash x = Sha1Hash y → x = y.
Proof.
  intros [= Heq]. revert y Heq.
  induction x as [|c x IH]; intros [|d y]; try done.
  - intros [= <- Heq]. by destruct y.
  - intros [= -> Heq]. by destruct x.
  - intros [= -> Heq]. f_equal. by apply IH.
Qed.

Lemma group_key_separates_leaders_witness :
  genGroupUniqueKey (Namespace leaderPod) (Name leaderPod)
  ≠ genGroupUniqueKey (Namespace workerPod) (Name workerPod).
Proof.
  intros Heq.
  assert (hasSlash (Namespace leaderPod) = false) as H1 by reflexivity.
  assert (hasSlash (Namespace workerPod) = false) as H2 by reflexivity.
  apply (proj2 (group_key_separates_leaders
                  (Namespace leaderPod) (Name leaderPod)
                  (Namespace workerPod) (Name workerPod) H1 H2)
           (sample_hash_injective _ _)) in Heq as [_ Hname].
  discriminate Hname.
Defined.

Lemma admitted_leader_has_placement_witness :
  exclusiveAffinityApplied (admitted leaderPod) = true.
Proof.
  assert (requestsIgnoreAffinity) as Hreq by (intros s a; reflexivity).
  apply (admitted_leader_has_placement leaderPod (admitted leaderPod) Hreq).
  - by eexists.
  - vm_compute. reflexivity.
  - by eexists.
  - vm_compute. reflexivity.
  - vm_compute. reflexivity.
Defined.

Lemma accelerator_block_passes_the_size_witness :
  ∃ pod1,
    addLabels tpuLeader = (pod1, inr tt)
    ∧ Default (ObjPod tpuLeader)
      = (ObjPod (AddTPUVariables pod1 4).1, (AddTPUVariables pod1 4).2).
Proof.
  apply (accelerator_block_passes_the_size tpuLeader 4).
  - intros s a. reflexivity.
  - by eexists.
  - apply (bool_decide_eq_true_1 _). reflexivity.
  - vm_compute. reflexivity.
  - vm_compute. reflexivity.
  - split; discriminate.
Defined.

Lemma well_formed_member_is_admitted_witness :
  (Default (ObjPod workerPod)).2 = None.
Proof.
  apply (well_formed_member_is_admitted workerPod).
  - intros s a. reflexivity.
  - by eexists.
  - apply (bool_decide_eq_true_1 _). reflexivity.
  - vm_compute. reflexivity.
Defined.
